(** * csv2graph: a shallow embedding of [csv2graph.py] and its properties

    The program reads a table, turns one source column and several target
    columns into an edge list, counts repeated pairs into weights, builds a
    NetworkX graph and attaches node attributes.  The embedding follows
    [convert_to_graph] line by line; the pandas and NetworkX calls it makes
    are written out as list functions, and the exceptions those calls raise
    are the [Err] results of a small error monad. *)

From Stdlib Require Import List String Ascii Bool Arith Lia.
Import ListNotations.
Open Scope string_scope.
Open Scope list_scope.
Open Scope nat_scope.

(** ** Python strings

    A Python [str] is modelled by [string]: a character is a code point
    below 256 (Latin-1), which covers ASCII text exactly. *)

Module PyStr.

Definition code (c : ascii) : nat := nat_of_ascii c.

(** [str.isspace] on one character: tab, line feed, vertical tab, form
    feed, carriage return, the four separators 0x1c..0x1f, space, NEL
    (0x85) and the no-break space (0xa0). *)
Definition isspace (c : ascii) : bool :=
  let n := code c in
  ((9 <=? n) && (n <=? 13)) || ((28 <=? n) && (n <=? 32))
  || (n =? 133) || (n =? 160).

(** [str.lower] on one character: A-Z, and the Latin-1 capitals
    0xc0..0xde except the multiplication sign 0xd7. *)
Definition lower_char (c : ascii) : ascii :=
  let n := code c in
  if ((65 <=? n) && (n <=? 90))
     || ((192 <=? n) && (n <=? 222) && negb (n =? 215))
  then ascii_of_nat (n + 32) else c.

Fixpoint lower (s : string) : string :=
  match s with
  | EmptyString => EmptyString
  | String c r => String (lower_char c) (lower r)
  end.

(** [s.split()] with no argument: the maximal runs of characters that are
    not whitespace, in order; [tok] is the run being read. *)
Fixpoint split_from (tok : string) (s : string) : list string :=
  match s with
  | EmptyString => if String.eqb tok "" then [] else [tok]
  | String c r =>
      if isspace c
      then (if String.eqb tok "" then split_from "" r
            else tok :: split_from "" r)
      else split_from (tok ++ String c "") r
  end.

Definition split (s : string) : list string := split_from "" s.

(** [s.startswith(p)] for a one-character prefix [p]. *)
Definition startswith (p : ascii) (s : string) : bool :=
  match s with
  | String c _ => Ascii.eqb c p
  | EmptyString => false
  end.

(** [s.lstrip(p)] for a one-character set [p]: every leading [p] goes. *)
Fixpoint lstrip (p : ascii) (s : string) : string :=
  match s with
  | String c r => if Ascii.eqb c p then lstrip p r else s
  | EmptyString => EmptyString
  end.

(** [sep.join]-inverse [s.split(sep)] for a one-character separator:
    empty fields are kept, and the empty string gives one empty field. *)
Fixpoint split_on_from (sep : ascii) (tok : string) (s : string)
  : list string :=
  match s with
  | EmptyString => [tok]
  | String c r =>
      if Ascii.eqb c sep then tok :: split_on_from sep "" r
      else split_on_from sep (tok ++ String c "") r
  end.

Definition split_on (sep : ascii) (s : string) : list string :=
  split_on_from sep "" s.

(** [n] copies of one character. *)
Fixpoint replicate (n : nat) (c : ascii) : string :=
  match n with
  | 0 => EmptyString
  | S k => String c (replicate k c)
  end.

End PyStr.

(** ** Cell values

    What a DataFrame cell holds in this program: a string, pandas' missing
    value [NaN], or the list of strings an extractor returned. *)

Inductive cell : Type :=
| Str (s : string)
| NaN
| Lst (l : list string).

Definition cell_eq_dec (a b : cell) : {a = b} + {a <> b}.
Proof.
  decide equality; try apply string_dec.
  apply (list_eq_dec string_dec).
Defined.

Definition cell_eqb (a b : cell) : bool :=
  if cell_eq_dec a b then true else false.

Definition isna (c : cell) : bool :=
  match c with NaN => true | _ => false end.

Definition is_list (c : cell) : bool :=
  match c with Lst _ => true | _ => false end.

(** ** Token extractors (lines 126-145) *)

Definition at_sign : ascii := "@"%char.
Definition hash_sign : ascii := "#"%char.

(** [find_mentions], lines 133-134. *)
Definition find_mentions (x : string) : list string :=
  let mentions := filter (PyStr.startswith at_sign) (PyStr.split (PyStr.lower x)) in
  map (PyStr.lstrip at_sign)
      (filter (fun mention => 1 <? String.length mention) mentions).

(** [find_hashtags], lines 144-145. *)
Definition find_hashtags (x : string) : list string :=
  let hashtags := filter (PyStr.startswith hash_sign) (PyStr.split (PyStr.lower x)) in
  filter (fun hashtag => 2 <? String.length hashtag) hashtags.

(** The default [source_map] and [target_map], [lambda x: x]. *)
Definition identity (x : string) : cell := Str x.

(** The two extractors as cell-valued maps, as [--mentions] and
    [--hashtags] install them. *)
Definition mentions_map (x : string) : cell := Lst (find_mentions x).
Definition hashtags_map (x : string) : cell := Lst (find_hashtags x).

(** The mentions rule as the specification words it: strip the [@], then
    keep what is longer than one character. *)
Definition mentions_claimed (x : string) : list string :=
  filter (fun m => 1 <? String.length m)
         (map (PyStr.lstrip at_sign)
              (filter (PyStr.startswith at_sign) (PyStr.split (PyStr.lower x)))).

(** The mentions rule in one pass over the tokens: a token is a mention
    when an [@] is followed by at least one more character, and it is
    returned without its leading [@] signs. *)
Definition mention_of (tok : string) : option string :=
  match tok with
  | String c (String d r) =>
      if Ascii.eqb c at_sign then Some (PyStr.lstrip at_sign (String d r))
      else None
  | _ => None
  end.

Fixpoint filter_map {A B} (f : A -> option B) (l : list A) : list B :=
  match l with
  | [] => []
  | a :: r => match f a with
              | Some b => b :: filter_map f r
              | None => filter_map f r
              end
  end.

Definition mentions_one_pass (x : string) : list string :=
  filter_map mention_of (PyStr.split (PyStr.lower x)).

(** ** Exceptions

    The program has no [raise] of its own: what it raises is what pandas
    and NetworkX raise.  [Err e] is an uncaught exception of class [e]. *)

Inductive error : Type := KeyError | TypeError | ValueError | NetworkXError.

Inductive result (A : Type) : Type :=
| Ok (a : A)
| Err (e : error).

Arguments Ok {A} a.
Arguments Err {A} e.

Definition bind {A B} (m : result A) (f : A -> result B) : result B :=
  match m with
  | Ok a => f a
  | Err e => Err e
  end.

Notation "x <- m ;; k" := (bind m (fun x => k))
  (at level 61, m at next level, right associativity).

Fixpoint mapM {A B} (f : A -> result B) (l : list A) : result (list B) :=
  match l with
  | [] => Ok []
  | a :: r => b <- f a ;; bs <- mapM f r ;; Ok (b :: bs)
  end.

(** ** Library behaviour the source does not fix

    The calls are those of pandas 1.x and 2.x ([applymap] and
    [DataFrame.value_counts] both exist there) and of NetworkX 2.x.
    [str_of_list] is Python's [str] of a list of strings (its [repr]); the
    program reaches it only when the source column is listed as a target
    too.  [nx_legacy] tells the older [from_pandas_edgelist], which tests
    [if edge_attr:], adds bare edges for an empty list and raises
    [KeyError] for an unknown attribute column, from the newer one, which
    raises [NetworkXError] in both cases. *)

Record Libs : Type := mkLibs {
  str_of_list : list string -> string;
  nx_legacy : bool
}.

(** ** The table

    A table is its column names, unique, and its rows.  The table of the
    input file is what the parser of [pd.read_csv] finds in it: the names
    of the header and, under them, the records, a field the parser found
    empty being [NaN].  The frame [df] of the program is the table that
    [read_csv], below, makes of it. *)

Definition row : Type := list cell.

Record DataFrame : Type := mkDF {
  columns : list string;
  values : list row
}.

(** [df.columns.get_loc]: the position of a column name. *)
Fixpoint get_loc (c : string) (cols : list string) : option nat :=
  match cols with
  | [] => None
  | h :: r => if String.eqb h c then Some 0 else option_map S (get_loc c r)
  end.

(** [df[c]] raises [KeyError] for a column the frame does not have. *)
Definition loc (df : DataFrame) (c : string) : result nat :=
  match get_loc c (columns df) with
  | Some j => Ok j
  | None => Err KeyError
  end.

Definition at_col (j : nat) (r : row) : cell := nth j r NaN.

Fixpoint put (j : nat) (v : cell) (r : row) : row :=
  match j, r with
  | 0, [] => [v]
  | 0, _ :: t => v :: t
  | S k, [] => NaN :: put k v []
  | S k, h :: t => h :: put k v t
  end.

(** [astype(str)] on one cell: [str(x)]; the missing value becomes the
    three letters [nan]. *)
Definition astype_str (L : Libs) (c : cell) : string :=
  match c with
  | Str s => s
  | NaN => "nan"
  | Lst l => str_of_list L l
  end.

(** ** The engine's configuration: the keyword arguments of
    [convert_to_graph] that the graph depends on *)

Record Config : Type := mkConfig {
  source : string;
  target : list string;
  edge_attrs : list string;
  node_attrs : list string;
  node_index : option string;
  source_map : string -> cell;
  target_map : string -> cell;
  directed : bool;
  explode : bool;
  self_loops : bool;
  weighted : bool
}.

(** The defaults of the signature, lines 47-64: what a call that passes
    only [file_name], [source] and [target] runs with. *)
Definition signature_defaults (src : string) (tgt : list string) : Config :=
  {| source := src; target := tgt;
     edge_attrs := []; node_attrs := []; node_index := None;
     source_map := identity; target_map := identity;
     directed := true; explode := false;
     self_loops := true; weighted := true |}.

(** ** Row normalisation (lines 79-84) *)

(** Line 79, [df[source] = df[source].astype(str).apply(source_map)]. *)
Definition apply_column (f : cell -> cell) (j : nat) (rows : list row)
  : list row :=
  map (fun r => put j (f (at_col j r)) r) rows.

(** Line 80, [df[target] = df[target].astype(str).applymap(target_map)]:
    every target cell is computed from the row as it was, then stored. *)
Definition applymap_row (f : cell -> cell) (js : list nat) (r : row) : row :=
  fold_left (fun acc j => put j (f (at_col j r)) acc) js r.

(** [df.explode(column)]: a list cell gives one row per element, an empty
    list one row holding [NaN], anything else the row itself. *)
Definition explode_row (j : nat) (r : row) : list row :=
  match at_col j r with
  | Lst [] => [put j NaN r]
  | Lst l => map (fun s => put j (Str s) r) l
  | _ => [r]
  end.

Definition df_explode (j : nat) (rows : list row) : list row :=
  flat_map (explode_row j) rows.

(** Lines 79-84; the result carries the positions of the source column and
    of the target columns with the rows. *)
Definition normalize (L : Libs) (cfg : Config) (df : DataFrame)
  : result (nat * list nat * list row) :=
  s <- loc df (source cfg) ;;
  let rows1 :=
    apply_column (fun c => source_map cfg (astype_str L c)) s (values df) in
  ts <- mapM (loc df) (target cfg) ;;
  let rows2 :=
    map (applymap_row (fun c => target_map cfg (astype_str L c)) ts) rows1 in
  let rows3 :=
    if explode cfg
    then fold_left (fun rows j => df_explode j rows) (s :: ts) rows2
    else rows2 in
  Ok (s, ts, rows3).

(** ** Edge aggregation (lines 86-96) *)

Definition edge_key : Type := (cell * cell)%type.

(** [df[[source, t]].dropna(subset=[t]).values] for one target column. *)
Definition pairs_of (s t : nat) (rows : list row) : list edge_key :=
  map (fun r => (at_col s r, at_col t r))
      (filter (fun r => negb (isna (at_col t r))) rows).

(** Lines 86-89; [pd.concat] of no frame raises [ValueError]. *)
Definition edge_frame (s : nat) (ts : list nat) (rows : list row)
  : result (list edge_key) :=
  match ts with
  | [] => Err ValueError
  | _ => Ok (flat_map (fun t => pairs_of s t rows) ts)
  end.

(** The elementwise [!=] of two object columns: a missing value differs
    from everything, itself included. *)
Definition cell_ne (a b : cell) : bool :=
  match a, b with
  | NaN, _ => true
  | _, NaN => true
  | _, _ => negb (cell_eqb a b)
  end.

(** Lines 91-92. *)
Definition drop_self_loops (E : list edge_key) : list edge_key :=
  filter (fun p => cell_ne (fst p) (snd p)) E.

Definition key_eqb (p q : edge_key) : bool :=
  cell_eqb (fst p) (fst q) && cell_eqb (snd p) (snd q).

(** One more occurrence of [p] in the table of counts. *)
Fixpoint incr (p : edge_key) (counts : list (edge_key * nat))
  : list (edge_key * nat) :=
  match counts with
  | [] => [(p, 1)]
  | (q, k) :: r => if key_eqb q p then (q, S k) :: r else (q, k) :: incr p r
  end.

(** [E.value_counts()]: the rows are grouped by their two values; a row
    holding a missing value is left out of the counts ([dropna=True]), and
    a list cannot be hashed.  The order of the counts plays no part in the
    lookups that follow. *)
Definition value_counts (E : list edge_key)
  : result (list (edge_key * nat)) :=
  if existsb (fun p => is_list (fst p) || is_list (snd p)) E
  then Err TypeError
  else Ok (fold_left
             (fun acc p => if isna (fst p) || isna (snd p) then acc
                           else incr p acc)
             E []).

(** [weights.loc[x, y]] raises [KeyError] for a pair that was not counted. *)
Definition weights_loc (weights : list (edge_key * nat)) (p : edge_key)
  : result nat :=
  match find (fun e => key_eqb (fst e) p) weights with
  | Some e => Ok (snd e)
  | None => Err KeyError
  end.

(** Lines 95-96: the column [weight], one value per row of [E]. *)
Definition add_weights (E : list edge_key) : result (list (edge_key * nat)) :=
  weights <- value_counts E ;;
  mapM (fun p => k <- weights_loc weights p ;; Ok (p, k)) E.

(** Lines 86-92. *)
Definition candidate_pairs (cfg : Config) (s : nat) (ts : list nat)
           (rows : list row) : result (list edge_key) :=
  E <- edge_frame s ts rows ;;
  Ok (if self_loops cfg then E else drop_self_loops E).

(** A row of [E] as [from_pandas_edgelist] reads it: the two endpoints and
    the weight, when there is a [weight] column. *)
Definition edge_row : Type := (edge_key * option nat)%type.

(** Lines 94-96. *)
Definition weigh (cfg : Config) (E : list edge_key) : result (list edge_row) :=
  if weighted cfg
  then W <- add_weights E ;; Ok (map (fun e => (fst e, Some (snd e))) W)
  else Ok (map (fun p => (p, None)) E).

(** ** The graph (NetworkX [DiGraph] or [Graph])

    The nodes in insertion order, each with its attribute dictionary; the
    edges in insertion order, each stored under the orientation that
    created it, with its [weight] when one was set.  In an undirected graph
    [(u, v)] and [(v, u)] name the same edge.  Nodes are dictionary keys:
    two strings are the same node when they are equal, and the missing
    value, which pandas stores as the one object [nan], is one node. *)

Definition attrs : Type := list (string * cell).

Record Graph : Type := mkGraph {
  is_directed : bool;
  nodes : list (cell * attrs);
  edges : list edge_row
}.

Definition empty_graph (d : bool) : Graph := mkGraph d [] [].

Definition node_ids (G : Graph) : list cell := map fst (nodes G).

Definition has_node (G : Graph) (n : cell) : bool :=
  existsb (cell_eqb n) (node_ids G).

Definition add_node (n : cell) (G : Graph) : Graph :=
  if has_node G n then G
  else mkGraph (is_directed G) (nodes G ++ [(n, [])]) (edges G).

Definition flip (p : edge_key) : edge_key := (snd p, fst p).

Definition same_edge (d : bool) (p q : edge_key) : bool :=
  key_eqb p q || (negb d && key_eqb p (flip q)).

(** [g.add_edge(s, t)] followed by [g[s][t].update(...)] on the edge
    dictionary: an edge that exists keeps its place and takes the new
    weight, a new one goes last. *)
Fixpoint update_edge (d : bool) (p : edge_key) (w : option nat)
         (es : list edge_row) : list edge_row :=
  match es with
  | [] => [(p, w)]
  | (q, old) :: r =>
      if same_edge d q p
      then (q, match w with Some k => Some k | None => old end) :: r
      else (q, old) :: update_edge d p w r
  end.

Definition add_edge (e : edge_row) (G : Graph) : Graph :=
  let G1 := add_node (snd (fst e)) (add_node (fst (fst e)) G) in
  mkGraph (is_directed G1) (nodes G1)
          (update_edge (is_directed G1) (fst e) (snd e) (edges G1)).

(** [G.get_edge_data(u, v)]'s weight: [None] when there is no such edge,
    [Some None] for an edge without weight. *)
Definition edge_data (G : Graph) (p : edge_key) : option (option nat) :=
  option_map snd (find (fun e => same_edge (is_directed G) (fst e) p) (edges G)).

Definition unhashable (E : list edge_row) : bool :=
  existsb (fun e => is_list (fst (fst e)) || is_list (snd (fst e))) E.

(** Lines 98-106.  [E] has the columns [0], [1] and, when weighted,
    [weight]; every name of [edge_attr] has to be one of them, and those
    names are strings, so only [weight] can be.  A list is not hashable
    and cannot be a node. *)
Definition from_pandas_edgelist (L : Libs) (d w : bool)
           (e_attrs : list string) (E : list edge_row) : result Graph :=
  let edge_attr := (if w then ["weight"] else []) ++ e_attrs in
  match edge_attr with
  | [] =>
      if nx_legacy L
      then if unhashable E then Err TypeError
           else Ok (fold_left (fun G e => add_edge e G) E (empty_graph d))
      else Err NetworkXError
  | _ =>
      if forallb (fun a => w && String.eqb a "weight") edge_attr
      then if unhashable E then Err TypeError
           else Ok (fold_left (fun G e => add_edge e G) E (empty_graph d))
      else Err (if nx_legacy L then KeyError else NetworkXError)
  end.

(** ** Node attributes (lines 108-115) *)

(** [d[k] = v] on a dictionary kept as an association list. *)
Fixpoint dict_set {K V} (eqb : K -> K -> bool) (k : K) (v : V)
         (d : list (K * V)) : list (K * V) :=
  match d with
  | [] => [(k, v)]
  | (k', v') :: r =>
      if eqb k' k then (k', v) :: r else (k', v') :: dict_set eqb k v r
  end.

Definition dict_get {K V} (eqb : K -> K -> bool) (k : K) (d : list (K * V))
  : option V :=
  option_map snd (find (fun e => eqb (fst e) k) d).

(** [Series.drop_duplicates()]: an entry whose VALUE was met before is
    dropped, whatever its index label; the first occurrence stays. *)
Definition drop_duplicates (s : list (cell * cell)) : list (cell * cell) :=
  fold_left
    (fun acc kv => if existsb (fun q => cell_eqb (snd q) (snd kv)) acc
                   then acc else acc ++ [kv])
    s [].

(** [Series.to_dict()]: index label to value, a later entry replacing an
    earlier one with the same label. *)
Definition to_dict (s : list (cell * cell)) : list (cell * cell) :=
  fold_left (fun d kv => dict_set cell_eqb (fst kv) (snd kv) d) s [].

(** Lines 111-113 on the index column and the attribute column.  A list
    cell in either makes pandas raise (it cannot be hashed); which class
    it raises for a list in the index is not followed further. *)
Definition node_attr_dict (index vals : list cell)
  : result (list (cell * cell)) :=
  if existsb is_list index || existsb is_list vals then Err TypeError
  else Ok (to_dict (drop_duplicates (combine index vals))).

Definition set_node_attr (n : cell) (name : string) (v : cell)
           (ns : list (cell * attrs)) : list (cell * attrs) :=
  map (fun nd => if cell_eqb (fst nd) n
                 then (fst nd, dict_set String.eqb name v (snd nd))
                 else nd)
      ns.

(** [nx.set_node_attributes(G, values, name)]: [G.nodes[n][name] = v] for
    every entry, the [KeyError] of a label that is no node being caught. *)
Definition set_node_attributes (G : Graph) (vals : list (cell * cell))
           (name : string) : Graph :=
  fold_left
    (fun g kv => mkGraph (is_directed g)
                         (set_node_attr (fst kv) name (snd kv) (nodes g))
                         (edges g))
    vals G.

Definition node_attr (G : Graph) (n : cell) (name : string) : option cell :=
  match find (fun nd => cell_eqb (fst nd) n) (nodes G) with
  | Some nd => dict_get String.eqb name (snd nd)
  | None => None
  end.

(** ** [convert_to_graph] (lines 68-123) *)

(** Line 76: the list of columns asked of the reader.  [node_index] is a
    string, and a list plus a non-empty string raises [TypeError]. *)
Definition usecols (cfg : Config) : result (list string) :=
  match node_index cfg with
  | Some (String _ _) => Err TypeError
  | _ => Ok (source cfg :: target cfg ++ node_attrs cfg ++ edge_attrs cfg)
  end.

(** [(node_index or source)], line 111. *)
Definition index_column (cfg : Config) : string :=
  match node_index cfg with
  | Some (String c r) => String c r
  | _ => source cfg
  end.

(** [c] is one of the names of [usecols]. *)
Definition asked (cols : list string) (c : string) : bool :=
  existsb (String.eqb c) cols.

(** The cells of one record that stand under the names of [usecols]; a
    record shorter than the header is filled with missing values. *)
Fixpoint select (cols header : list string) (r : row) : row :=
  match header with
  | [] => []
  | h :: hs =>
      if asked cols h then at_col 0 r :: select cols hs (tl r)
      else select cols hs (tl r)
  end.

(** [pd.read_csv(file_name, ..., usecols=cols)] on the table of the file.
    A name of [usecols] that the header lacks makes the reader raise
    [ValueError] before line 79 is reached, and so does a file without
    header, for which it raises [EmptyDataError], a [ValueError] too.
    Otherwise the frame holds the columns that [usecols] names, in the
    order of the file. *)
Definition read_csv (cols : list string) (file : DataFrame)
  : result DataFrame :=
  if forallb (fun c => existsb (String.eqb c) (columns file)) cols
  then Ok (mkDF (filter (asked cols) (columns file))
                (map (select cols (columns file)) (values file)))
  else Err ValueError.

(** Lines 72-106: the frame [df] as it is after line 84, and the graph of
    the edges. *)
Definition edge_graph (L : Libs) (cfg : Config) (file : DataFrame)
  : result (DataFrame * Graph) :=
  cols <- usecols cfg ;;
  df <- read_csv cols file ;;
  n <- normalize L cfg df ;;
  E <- candidate_pairs cfg (fst (fst n)) (snd (fst n)) (snd n) ;;
  W <- weigh cfg E ;;
  G <- from_pandas_edgelist L (directed cfg) (weighted cfg) (edge_attrs cfg) W ;;
  Ok (mkDF (columns df) (snd n), G).

(** One round of the loop of lines 108-115: [df] gives the column names,
    [rows] are its rows after line 84. *)
Definition bind_node_attribute (cfg : Config) (df : DataFrame)
           (rows : list row) (G : Graph) (attr : string) : result Graph :=
  a <- loc df attr ;;
  i <- loc df (index_column cfg) ;;
  d <- node_attr_dict (map (at_col i) rows) (map (at_col a) rows) ;;
  Ok (set_node_attributes G d attr).

(** The whole function, from the table of the file to the graph it
    returns; writing the graph to a file (lines 117-121) is left out. *)
Definition convert_to_graph (L : Libs) (cfg : Config) (file : DataFrame)
  : result Graph :=
  dg <- edge_graph L cfg file ;;
  fold_left
    (fun acc attr =>
       G <- acc ;;
       bind_node_attribute cfg (fst dg) (values (fst dg)) G attr)
    (node_attrs cfg) (Ok (snd dg)).

(** ** The command line (lines 162-236) *)

Inductive Flag : Type :=
| Hashtags | Mentions | NoExplosion | SelfLoops | Undirected | Unweighted.

Definition flag_eqb (a b : Flag) : bool :=
  match a, b with
  | Hashtags, Hashtags | Mentions, Mentions | NoExplosion, NoExplosion
  | SelfLoops, SelfLoops | Undirected, Undirected | Unweighted, Unweighted => true
  | _, _ => false
  end.

(** What the user typed: the positional [source] and [target], the values
    of [-e], [-n] and [-i] when given, and the flags in the order given. *)
Record CommandLine : Type := mkCommandLine {
  cl_source : string;
  cl_target : string;
  cl_edge_attrs : option string;
  cl_node_attrs : option string;
  cl_node_index : option string;
  cl_flags : list Flag
}.

Definition given (f : Flag) (c : CommandLine) : bool :=
  existsb (flag_eqb f) (cl_flags c).

Definition comma : ascii := ","%char.

(** [args()] followed by the splitting of lines 68-70: [store_false] flags
    default to true, [store_true] flags to false, and the two extractor
    flags write the same destination, the last one given winning. *)
Definition args (c : CommandLine) : Config :=
  {| source := cl_source c;
     target := PyStr.split_on comma (cl_target c);
     edge_attrs := match cl_edge_attrs c with
                   | Some s => PyStr.split_on comma s
                   | None => []
                   end;
     node_attrs := match cl_node_attrs c with
                   | Some s => PyStr.split_on comma s
                   | None => []
                   end;
     node_index := cl_node_index c;
     source_map := identity;
     target_map := fold_left
                     (fun m f => match f with
                                 | Hashtags => hashtags_map
                                 | Mentions => mentions_map
                                 | _ => m
                                 end)
                     (cl_flags c) identity;
     directed := negb (given Undirected c);
     explode := negb (given NoExplosion c);
     self_loops := given SelfLoops c;
     weighted := negb (given Unweighted c) |}.

(** A command line with the two positional arguments and nothing else. *)
Definition bare_command_line (src tgt : string) : CommandLine :=
  mkCommandLine src tgt None None None [].

(** ** Names used by the statements *)

(** Lines 79-92 on the rows of a table: the candidate pairs that survive
    explosion, the filter on missing targets and the filter on
    self-loops. *)
Definition surviving_pairs (L : Libs) (cfg : Config) (df : DataFrame)
  : result (list edge_key) :=
  n <- normalize L cfg df ;;
  candidate_pairs cfg (fst (fst n)) (snd (fst n)) (snd n).

Definition key_eq_dec (p q : edge_key) : {p = q} + {p <> q}.
Proof.
  decide equality; apply cell_eq_dec.
Defined.

(** The number of rows of [E] that are the pair [p]. *)
Definition occurrences (E : list edge_key) (p : edge_key) : nat :=
  count_occ key_eq_dec E p.

(** The endpoints of the edges of a graph. *)
Definition endpoint (G : Graph) (n : cell) : Prop :=
  exists e, In e (edges G) /\ (n = fst (fst e) \/ n = snd (fst e)).

(** A pair of identifiers as a pair of cells. *)
Definition ids (p : string * string) : edge_key := (Str (fst p), Str (snd p)).

(** The records of the specification's end-to-end scenario. *)
Definition scenario : DataFrame :=
  mkDF ["s"; "t"] [[Str "A"; Str "B"]; [Str "A"; Str "B"]; [Str "A"; Str "A"]].

(** The configuration [cfg] with its [directed] flag set to [d]. *)
Definition with_directed (d : bool) (cfg : Config) : Config :=
  {| source := source cfg; target := target cfg;
     edge_attrs := edge_attrs cfg; node_attrs := node_attrs cfg;
     node_index := node_index cfg;
     source_map := source_map cfg; target_map := target_map cfg;
     directed := d; explode := explode cfg;
     self_loops := self_loops cfg; weighted := weighted cfg |}.

(** Library settings for the examples, none of which prints a list:
    a recent NetworkX and an older one. *)
Definition bracketed (l : list string) : string :=
  ("[" ++ String.concat ", " l ++ "]")%string.

Definition nx_recent : Libs := mkLibs bracketed false.
Definition nx_old : Libs := mkLibs bracketed true.

(** Example inputs. *)

(** The same undirected edge met twice as [a, b] and once as [b, a]. *)
Definition both_ways : DataFrame :=
  mkDF ["s"; "t"] [[Str "a"; Str "b"]; [Str "a"; Str "b"]; [Str "b"; Str "a"]].

(** Two nodes with the same value of the attribute [c]. *)
Definition same_colour : DataFrame :=
  mkDF ["s"; "t"; "c"]
       [[Str "A"; Str "B"; Str "x"]; [Str "B"; Str "A"; Str "x"]].

Definition with_colour : Config :=
  {| source := "s"; target := ["t"];
     edge_attrs := []; node_attrs := ["c"]; node_index := None;
     source_map := identity; target_map := identity;
     directed := true; explode := true;
     self_loops := false; weighted := true |}.

(** A row whose target holds no mention: [C] gets no edge, and its
    colour has no node to land on. *)
Definition orphan_colour : DataFrame :=
  mkDF ["s"; "t"; "c"]
       [[Str "A"; Str "see @bob"; Str "red"]; [Str "C"; Str "nobody"; Str "blue"]].

Definition mentions_with_colour : Config :=
  {| source := "s"; target := ["t"];
     edge_attrs := []; node_attrs := ["c"]; node_index := None;
     source_map := identity; target_map := mentions_map;
     directed := true; explode := true;
     self_loops := false; weighted := true |}.

(** A source extractor that finds no token in a row whose source is
    missing, with the flags of the command line. *)
Definition mentions_on_source (w : bool) : Config :=
  {| source := "s"; target := ["t"];
     edge_attrs := []; node_attrs := []; node_index := None;
     source_map := mentions_map; target_map := identity;
     directed := true; explode := true;
     self_loops := false; weighted := w |}.

Definition missing_source : DataFrame :=
  mkDF ["s"; "t"] [[NaN; Str "x"]].

Definition undirected_weighted : Config :=
  {| source := "s"; target := ["t"];
     edge_attrs := []; node_attrs := []; node_index := None;
     source_map := identity; target_map := identity;
     directed := false; explode := true;
     self_loops := false; weighted := true |}.

(** The last row of [E] that names the edge [p]: the pair itself or, in
    an undirected graph, the pair reversed. *)
Fixpoint last_row (d : bool) (p : edge_key) (E : list edge_key)
  : option edge_key :=
  match E with
  | [] => None
  | q :: r =>
      match last_row d p r with
      | Some x => Some x
      | None => if same_edge d q p then Some q else None
      end
  end.

(** ** Names used by the proofs *)

(** Lines 79-106 and lines 79-115 on a table as it is, the reader left
    out: [convert_to_graph] is the reader followed by [engine]. *)
Definition engine_graph (L : Libs) (cfg : Config) (df : DataFrame)
  : result (list row * Graph) :=
  n <- normalize L cfg df ;;
  E <- candidate_pairs cfg (fst (fst n)) (snd (fst n)) (snd n) ;;
  W <- weigh cfg E ;;
  G <- from_pandas_edgelist L (directed cfg) (weighted cfg) (edge_attrs cfg) W ;;
  Ok (snd n, G).

Definition engine (L : Libs) (cfg : Config) (df : DataFrame) : result Graph :=
  rg <- engine_graph L cfg df ;;
  fold_left
    (fun acc attr => G <- acc ;; bind_node_attribute cfg df (fst rg) G attr)
    (node_attrs cfg) (Ok (snd rg)).

(** Position [j] of the table of the file and position [k] of the frame
    hold the same column. *)
Definition same_column (cols header : list string) (j k : nat) : Prop :=
  (forall r, at_col k (select cols header r) = at_col j r)
  /\ (forall v r, put k v (select cols header r)
                  = select cols header (put j v r)).

(** A row that [value_counts] counts: neither value is missing. *)
Definition counted (p : edge_key) : bool :=
  negb (isna (fst p) || isna (snd p)).

Definition count_step (acc : list (edge_key * nat)) (p : edge_key) :=
  if isna (fst p) || isna (snd p) then acc else incr p acc.

Definition tally (weights : list (edge_key * nat)) (p : edge_key) : nat :=
  match weights_loc weights p with
  | Ok k => k
  | Err _ => 0
  end.

(** The loop of [from_pandas_edgelist] from a graph [G] on. *)
Definition build (W : list edge_row) (G : Graph) : Graph :=
  fold_left (fun G e => add_edge e G) W G.

(** The node set is the set of endpoints. *)
Definition closed (G : Graph) : Prop :=
  forall n, In n (node_ids G) <-> endpoint G n.

(** Every stored edge that is the edge [p] has a weight in [Q]. *)
Definition weights_in (d : bool) (p : edge_key) (Q : option nat -> Prop)
           (es : list edge_row) : Prop :=
  forall e, In e es -> same_edge d (fst e) p = true -> Q (snd e).


(** An extractor that returns the two tokens of the explosion scenario. *)
Definition b_and_c (x : string) : cell := Lst ["b"; "c"].

Definition explosion_scenario : Config :=
  {| source := "source"; target := ["target"];
     edge_attrs := []; node_attrs := []; node_index := None;
     source_map := identity; target_map := b_and_c;
     directed := true; explode := true;
     self_loops := false; weighted := true |}.


(** ** Characters of a string *)

(** [c in s] for one character. *)
Fixpoint contains (c : ascii) (s : string) : bool :=
  match s with
  | EmptyString => false
  | String d r => Ascii.eqb d c || contains c r
  end.

(** Every character of [s] passes the test [P]. *)
Fixpoint all_chars (P : ascii -> bool) (s : string) : bool :=
  match s with
  | EmptyString => true
  | String c r => P c && all_chars P r
  end.

Definition not_space (c : ascii) : bool := negb (PyStr.isspace c).

(** A character that [lower] leaves as it is. *)
Definition lower_case (c : ascii) : bool := Ascii.eqb (PyStr.lower_char c) c.

(** ** The delimiter of the input file (lines 148-159) *)

Definition line_feed : ascii := "010"%char.
Definition carriage_return : ascii := "013"%char.
Definition tab : ascii := "009"%char.
Definition bar : ascii := "|"%char.
Definition semicolon : ascii := ";"%char.

(** [input_file.readline()] on a file opened in text mode: the characters
    up to the first line end, which comes back as one line feed whether
    the file has a line feed, a carriage return or both there. *)
Fixpoint readline (content : string) : string :=
  match content with
  | EmptyString => EmptyString
  | String c r =>
      if Ascii.eqb c line_feed || Ascii.eqb c carriage_return
      then String line_feed EmptyString
      else String c (readline r)
  end.

(** The loop of lines 155-159 over the candidates [ds]. *)
Fixpoint first_delimiter (ds : list ascii) (header : string) : ascii :=
  match ds with
  | [] => line_feed
  | d :: r => if contains d header then d else first_delimiter r header
  end.

Definition delimiters : list ascii := [bar; tab; semicolon; comma].

(** [get_file_delimiter], on the text of the file. *)
Definition get_file_delimiter (content : string) : ascii :=
  first_delimiter delimiters (readline content).

(** ** The name of the written file (lines 117-121) *)

(** [s.rstrip(chars)]: every trailing character that occurs in [chars]
    goes. *)
Fixpoint rstrip (chars : string) (s : string) : string :=
  match s with
  | EmptyString => EmptyString
  | String c r =>
      match rstrip chars r with
      | EmptyString => if contains c chars then EmptyString
                       else String c EmptyString
      | String d r' => String c (String d r')
      end
  end.

Definition dot : ascii := "."%char.





(** The file name of line 121 for an output name that is a string. *)
Definition with_format (name output_format : string) : string :=
  (rstrip (String dot output_format) name
   ++ String dot output_format)%string.


(** No two of the stored pairs name the same edge. *)
Fixpoint distinct_edges (d : bool) (ks : list edge_key) : Prop :=
  match ks with
  | [] => True
  | q :: r => (forall q', In q' r -> same_edge d q q' = false)
              /\ distinct_edges d r
  end.

(** The sum of the weights of the edges of a graph. *)
Definition total_weight (G : Graph) : nat :=
  list_sum (map (fun e => match snd e with Some k => k | None => 0 end)
                (edges G)).



(** * Properties *)

(** ** The token extractor *)

Section Tokens.

Lemma lower_replicate_at (n : nat) :
  PyStr.lower (PyStr.replicate n at_sign) = PyStr.replicate n at_sign.
Proof.
  induction n as [|n IH]; simpl; [reflexivity|].
  now rewrite IH.
Qed.

Lemma append_empty_r (s : string) : (s ++ "")%string = s.
Proof.
  induction s as [|c s IH]; simpl; [reflexivity|now rewrite IH].
Qed.

Lemma append_assoc_char (t : string) (c : ascii) (s : string) :
  ((t ++ String c "") ++ s)%string = (t ++ String c s)%string.
Proof.
  induction t as [|d t IH]; simpl; [reflexivity|now rewrite IH].
Qed.

(** A text without whitespace is one token. *)
Lemma split_from_replicate_at (n : nat) (tok : string) :
  PyStr.split_from tok (PyStr.replicate (S n) at_sign)
  = [(tok ++ PyStr.replicate (S n) at_sign)%string].
Proof.
  revert tok; induction n as [|n IH]; intros tok.
  - cbn [PyStr.replicate PyStr.split_from].
    change (PyStr.isspace at_sign) with false. cbv iota.
    destruct tok; reflexivity.
  - change (PyStr.replicate (S (S n)) at_sign)
      with (String at_sign (PyStr.replicate (S n) at_sign)).
    cbn [PyStr.split_from].
    change (PyStr.isspace at_sign) with false. cbv iota.
    rewrite IH. now rewrite append_assoc_char.
Qed.

Lemma lstrip_replicate_at (n : nat) :
  PyStr.lstrip at_sign (PyStr.replicate n at_sign) = "".
Proof.
  induction n as [|n IH]; simpl; [reflexivity|exact IH].
Qed.

Lemma length_replicate (n : nat) (c : ascii) :
  String.length (PyStr.replicate n c) = n.
Proof.
  induction n as [|n IH]; simpl; [reflexivity|now rewrite IH].
Qed.

(** The two passes of [find_mentions] are one pass of [mention_of]. *)
Lemma two_passes_one_pass (toks : list string) :
  map (PyStr.lstrip at_sign)
      (filter (fun m => 1 <? String.length m)
              (filter (PyStr.startswith at_sign) toks))
  = filter_map mention_of toks.
Proof.
  induction toks as [|t toks IH]; [reflexivity|].
  cbn [filter filter_map].
  destruct t as [|c [|d r]].
  - simpl. exact IH.
  - cbn [PyStr.startswith mention_of].
    destruct (Ascii.eqb c at_sign); simpl; exact IH.
  - cbn [PyStr.startswith mention_of].
    destruct (Ascii.eqb c at_sign) eqn:E.
    + cbn [filter].
      change (1 <? String.length (String c (String d r))) with true.
      cbv iota. cbn [map].
      rewrite IH. cbn [PyStr.lstrip]. rewrite E. reflexivity.
    + exact IH.
Qed.

End Tokens.

(** C3, as the code has it: [find_mentions] returns, in order, the
    lower-cased whitespace-separated tokens in which an [@] is followed by
    at least one more character (the length test counts the [@]), each
    without its leading [@] signs; so [@a] is kept as [a], [@ab] as [ab],
    and [hello @bob @al #x] gives [bob] and [al]. *)
Theorem find_mentions_rule :
  (forall x, find_mentions x = mentions_one_pass x)
  /\ find_mentions "@a" = ["a"]
  /\ find_mentions "@ab" = ["ab"]
  /\ find_mentions "hello @bob @al #x" = ["bob"; "al"].
Proof.
  split; [|repeat split; reflexivity].
  intros x. unfold find_mentions, mentions_one_pass.
  apply two_passes_one_pass.
Qed.

(** C3, as the specification words it, fails on the token [@a]: the code
    keeps it, the rule "longer than one character after stripping"
    excludes it. *)
Lemma find_mentions_keeps_one_letter :
  find_mentions "@a" = ["a"] /\ find_mentions "@a" <> mentions_claimed "@a".
Proof.
  split; [reflexivity|]. vm_compute. discriminate.
Qed.

(** C10: [find_mentions] can return the empty string as an identifier.  The
    length test counts the [@] and [lstrip] removes every leading [@], so
    the token [@@], and any token of two or more [@] signs, comes back as
    the empty string. *)
Theorem find_mentions_empty_identifier :
  find_mentions "@@" = [""]
  /\ (forall n, find_mentions (PyStr.replicate (S (S n)) at_sign) = [""])
  /\ exists x, In "" (find_mentions x).
Proof.
  split; [reflexivity|]. split.
  - intros n. unfold find_mentions, PyStr.split.
    rewrite lower_replicate_at, split_from_replicate_at.
    cbn [append filter PyStr.startswith PyStr.replicate].
    change (Ascii.eqb at_sign at_sign) with true. cbv iota.
    cbn [filter String.length]. rewrite length_replicate.
    cbn [Nat.ltb Nat.leb map].
    change (String at_sign (String at_sign (PyStr.replicate n at_sign)))
      with (PyStr.replicate (S (S n)) at_sign).
    now rewrite lstrip_replicate_at.
  - exists "@@". left. reflexivity.
Qed.

(** ** Defaults *)

(** C8, as the code has it: a command line that gives no flag runs the
    engine directed, weighted, without self-loops and with explosion; a
    call of [convert_to_graph] that leaves the keywords out runs it
    directed and weighted, but with self-loops allowed and without
    explosion.  On the scenario records the first drops the loop on [A],
    the second keeps it. *)
Theorem defaults_of_both_callers (L : Libs) (src tgt : string) :
  (let c := args (bare_command_line src tgt) in
   directed c = true /\ weighted c = true
   /\ self_loops c = false /\ explode c = true)
  /\ (let c := signature_defaults src [tgt] in
      directed c = true /\ weighted c = true
      /\ self_loops c = true /\ explode c = false)
  /\ convert_to_graph L (args (bare_command_line "s" "t")) scenario
     = Ok (mkGraph true [(Str "A", []); (Str "B", [])]
                   [((Str "A", Str "B"), Some 2)])
  /\ convert_to_graph L (signature_defaults "s" ["t"]) scenario
     = Ok (mkGraph true [(Str "A", []); (Str "B", [])]
                   [((Str "A", Str "B"), Some 2); ((Str "A", Str "A"), Some 1)]).
Proof.
  repeat split; reflexivity.
Qed.

(** C8, as the specification words it, fails for a direct call: the
    signature's defaults allow self-loops and switch explosion off. *)
Lemma signature_defaults_differ :
  ~ (directed (signature_defaults "s" ["t"]) = true
     /\ weighted (signature_defaults "s" ["t"]) = true
     /\ self_loops (signature_defaults "s" ["t"]) = false
     /\ explode (signature_defaults "s" ["t"]) = true).
Proof.
  intros [_ [_ [H _]]]. discriminate H.
Qed.

(** ** The error monad *)

Lemma bind_ok {A B} (m : result A) (f : A -> result B) (b : B) :
  bind m f = Ok b -> exists a, m = Ok a /\ f a = Ok b.
Proof.
  destruct m as [a|e]; simpl; intros H; [eauto|discriminate].
Qed.

Lemma mapM_ok_map {A B} (f : A -> result B) (g : A -> B) (l : list A) :
  (forall a, In a l -> f a = Ok (g a)) -> mapM f l = Ok (map g l).
Proof.
  induction l as [|a l IH]; intros H; [reflexivity|].
  simpl. rewrite (H a (or_introl eq_refl)). simpl.
  rewrite IH; [reflexivity|]. intros x Hx. apply H. now right.
Qed.

Lemma mapM_ok_inv {A B} (f : A -> result B) (l : list A) (bs : list B) :
  mapM f l = Ok bs -> Forall2 (fun a b => f a = Ok b) l bs.
Proof.
  revert bs; induction l as [|a l IH]; intros bs H.
  - simpl in H. injection H as <-. constructor.
  - simpl in H. apply bind_ok in H as [b [Hb H]].
    apply bind_ok in H as [bs' [Hbs H]]. injection H as <-.
    constructor; [exact Hb|now apply IH].
Qed.

(** ** Equality tests *)

Arguments cell_eqb : simpl never.
Arguments key_eqb : simpl never.

Lemma cell_eqb_eq (a b : cell) : cell_eqb a b = true <-> a = b.
Proof.
  unfold cell_eqb. destruct (cell_eq_dec a b); split; intros; congruence.
Qed.

Lemma cell_eqb_refl (a : cell) : cell_eqb a a = true.
Proof. now apply cell_eqb_eq. Qed.

Lemma key_eqb_eq (p q : edge_key) : key_eqb p q = true <-> p = q.
Proof.
  destruct p as [a b], q as [c d]. unfold key_eqb. cbn [fst snd].
  rewrite andb_true_iff, !cell_eqb_eq. split.
  - intros [-> ->]. reflexivity.
  - intros H. injection H as -> ->. now split.
Qed.

Lemma key_eqb_refl (p : edge_key) : key_eqb p p = true.
Proof. now apply key_eqb_eq. Qed.

Lemma key_eqb_neq (p q : edge_key) : key_eqb p q = false <-> p <> q.
Proof.
  pose proof (key_eqb_eq p q) as H.
  destruct (key_eqb p q); split; intros H1; try congruence.
  - exfalso. apply H1. now apply H.
  - intros ->. discriminate (proj2 H eq_refl).
Qed.

(** ** Counting (lines 94-96) *)

Section Counting.

Lemma weights_loc_incr (q p : edge_key) (c : list (edge_key * nat)) :
  weights_loc (incr q c) p
  = if key_eqb q p then Ok (S (tally c p)) else weights_loc c p.
Proof.
  unfold tally, weights_loc.
  induction c as [|[q' k] c IH]; simpl.
  - destruct (key_eqb q p); reflexivity.
  - destruct (key_eqb q' q) eqn:Eq.
    + apply key_eqb_eq in Eq. subst q'. simpl.
      destruct (key_eqb q p); reflexivity.
    + simpl. destruct (key_eqb q' p) eqn:Ep.
      * apply key_eqb_eq in Ep. subst q'. simpl.
        destruct (key_eqb q p) eqn:Eqp; [|reflexivity].
        apply key_eqb_eq in Eqp. subst q.
        rewrite key_eqb_refl in Eq. discriminate.
      * exact IH.
Qed.

Lemma weights_loc_fold (E : list edge_key) (p : edge_key) :
  forall acc,
    weights_loc (fold_left count_step E acc) p
    = if counted p
      then match occurrences E p with
           | 0 => weights_loc acc p
           | S n => Ok (S n + tally acc p)
           end
      else weights_loc acc p.
Proof.
  unfold occurrences.
  induction E as [|q E IH]; intros acc.
  - simpl. destruct (counted p); reflexivity.
  - cbn [fold_left]. rewrite IH. unfold count_step.
    destruct (counted p) eqn:Cp.
    + cbn [count_occ]. destruct (key_eq_dec q p) as [->|Hne].
      * unfold counted in Cp. apply negb_true_iff in Cp. rewrite Cp.
        unfold tally. rewrite weights_loc_incr, key_eqb_refl.
        fold (tally acc p).
        destruct (count_occ key_eq_dec E p); f_equal; lia.
      * apply key_eqb_neq in Hne.
        destruct (isna (fst q) || isna (snd q)); [reflexivity|].
        unfold tally. rewrite weights_loc_incr, Hne. reflexivity.
    + destruct (isna (fst q) || isna (snd q)) eqn:Cq; [reflexivity|].
      rewrite weights_loc_incr.
      destruct (key_eqb q p) eqn:Eq; [|reflexivity].
      apply key_eqb_eq in Eq. subst q.
      unfold counted in Cp. rewrite Cq in Cp. discriminate.
Qed.

(** What the lookup of line 96 finds for a row of [E]. *)
Lemma weights_loc_value_counts (E : list edge_key) (weights : list (edge_key * nat))
      (p : edge_key) :
  value_counts E = Ok weights -> In p E ->
  weights_loc weights p
  = if counted p then Ok (occurrences E p) else Err KeyError.
Proof.
  unfold value_counts. intros H Hin.
  destruct (existsb (fun p => is_list (fst p) || is_list (snd p)) E);
    [discriminate|]. injection H as <-.
  change (fun acc p => if isna (fst p) || isna (snd p) then acc else incr p acc)
    with count_step.
  rewrite weights_loc_fold.
  destruct (counted p); [|reflexivity].
  assert (Hpos : occurrences E p > 0)
    by (apply count_occ_In; exact Hin).
  destruct (occurrences E p); [lia|].
  unfold tally, weights_loc. simpl. f_equal. lia.
Qed.

(** The weight column: every row carries the number of rows that are
    the same pair, whenever the lookups succeed. *)
Lemma add_weights_ok (E : list edge_key) (W : list (edge_key * nat)) :
  add_weights E = Ok W ->
  W = map (fun p => (p, occurrences E p)) E
  /\ forallb counted E = true.
Proof.
  unfold add_weights. intros H.
  apply bind_ok in H as [weights [Hw H]].
  apply mapM_ok_inv in H.
  assert (Hall : forall E', incl E' E -> forall W',
             Forall2 (fun a b => (k <- weights_loc weights a ;; Ok (a, k)) = Ok b) E' W' ->
             W' = map (fun p => (p, occurrences E p)) E'
             /\ forallb counted E' = true).
  { induction E' as [|p E' IH]; intros Hincl W' HF; inversion HF; subst.
    - now split.
    - assert (Hp : In p E) by (apply Hincl; now left).
      rewrite (@weights_loc_value_counts E weights p Hw Hp) in H2.
      destruct (counted p) eqn:Cp; [|discriminate].
      simpl in H2. injection H2 as <-.
      destruct (IH (fun x Hx => Hincl x (or_intror Hx)) _ H4) as [-> Hc].
      simpl. rewrite Cp, Hc. now split. }
  apply (Hall E (incl_refl E) W H).
Qed.

(** The lookups do succeed when no value is missing and none is a list. *)
Lemma add_weights_total (E : list edge_key) :
  forallb counted E = true ->
  existsb (fun p => is_list (fst p) || is_list (snd p)) E = false ->
  add_weights E = Ok (map (fun p => (p, occurrences E p)) E).
Proof.
  intros Hc Hl. unfold add_weights.
  destruct (value_counts E) as [weights|e] eqn:Hw.
  - simpl. apply mapM_ok_map. intros p Hp.
    rewrite (@weights_loc_value_counts E weights p Hw Hp).
    rewrite forallb_forall in Hc. rewrite (Hc p Hp). reflexivity.
  - unfold value_counts in Hw. rewrite Hl in Hw. discriminate.
Qed.

Lemma occurrences_pos (E : list edge_key) (p : edge_key) :
  In p E -> 1 <= occurrences E p.
Proof.
  intros H. apply (count_occ_In key_eq_dec) in H. unfold occurrences. lia.
Qed.

End Counting.

(** ** Building the graph (lines 98-106) *)

Section GraphBuild.

Lemma same_edge_cases (d : bool) (q p : edge_key) :
  same_edge d q p = true -> q = p \/ (d = false /\ q = flip p).
Proof.
  unfold same_edge. intros H. apply orb_true_iff in H as [H|H].
  - left. now apply key_eqb_eq.
  - apply andb_true_iff in H as [Hd H]. right. split.
    + now destruct d.
    + now apply key_eqb_eq.
Qed.

Lemma same_edge_refl (d : bool) (p : edge_key) : same_edge d p p = true.
Proof. unfold same_edge. now rewrite key_eqb_refl. Qed.

Lemma flip_flip (p : edge_key) : flip (flip p) = p.
Proof. now destruct p. Qed.

(** In a directed graph an edge is its ordered pair. *)
Lemma same_edge_directed (q p : edge_key) :
  same_edge true q p = key_eqb q p.
Proof. unfold same_edge. simpl. now rewrite orb_false_r. Qed.

Lemma add_node_ids (n m : cell) (G : Graph) :
  In m (node_ids (add_node n G)) <-> In m (node_ids G) \/ m = n.
Proof.
  unfold add_node. destruct (has_node G n) eqn:H.
  - split; [now left|]. intros [Hm| ->]; [exact Hm|].
    unfold has_node in H. apply existsb_exists in H as [x [Hx Hx']].
    apply cell_eqb_eq in Hx'. now subst x.
  - unfold node_ids. simpl. rewrite map_app, in_app_iff. simpl.
    split.
    + intros [Hm|[<-|[]]]; [now left|now right].
    + intros [Hm| ->]; [now left|right; now left].
Qed.

Lemma add_node_edges (n : cell) (G : Graph) :
  edges (add_node n G) = edges G /\ is_directed (add_node n G) = is_directed G.
Proof. unfold add_node. now destruct (has_node G n). Qed.

(** The keys after [update_edge]: the old ones, and the new pair when no
    old one names the same edge. *)
Lemma update_edge_keys_old (d : bool) (p : edge_key) (w : option nat)
      (es : list edge_row) (q : edge_key) :
  In q (map fst es) -> In q (map fst (update_edge d p w es)).
Proof.
  induction es as [|[q' old] es IH]; simpl; [tauto|].
  destruct (same_edge d q' p); simpl; tauto.
Qed.

Lemma update_edge_keys_new (d : bool) (p : edge_key) (w : option nat)
      (es : list edge_row) (q : edge_key) :
  In q (map fst (update_edge d p w es)) -> In q (map fst es) \/ q = p.
Proof.
  induction es as [|[q' old] es IH]; simpl.
  - intros [<-|[]]. now right.
  - destruct (same_edge d q' p); simpl; [tauto|].
    intros [H|H]; [tauto|]. destruct (IH H); tauto.
Qed.

Lemma update_edge_has (d : bool) (p : edge_key) (w : option nat)
      (es : list edge_row) :
  exists q, In q (map fst (update_edge d p w es)) /\ same_edge d q p = true.
Proof.
  induction es as [|[q' old] es [q [Hq Hs]]]; simpl.
  - exists p. split; [now left|apply same_edge_refl].
  - destruct (same_edge d q' p) eqn:E; simpl.
    + exists q'. split; [now left|exact E].
    + exists q. split; [now right|exact Hs].
Qed.

Lemma add_edge_directed (e : edge_row) (G : Graph) :
  is_directed (add_edge e G) = is_directed G.
Proof.
  unfold add_edge. simpl.
  now rewrite (proj2 (add_node_edges _ _)), (proj2 (add_node_edges _ _)).
Qed.

Lemma add_edge_edges (e : edge_row) (G : Graph) :
  edges (add_edge e G)
  = update_edge (is_directed G) (fst e) (snd e) (edges G).
Proof.
  unfold add_edge. simpl.
  now rewrite !(proj2 (add_node_edges _ _)), !(proj1 (add_node_edges _ _)).
Qed.

Lemma add_edge_ids (e : edge_row) (G : Graph) (m : cell) :
  In m (node_ids (add_edge e G))
  <-> In m (node_ids G) \/ m = fst (fst e) \/ m = snd (fst e).
Proof.
  unfold add_edge.
  change (node_ids (mkGraph ?a ?b ?c)) with (map fst b).
  fold (node_ids (add_node (snd (fst e)) (add_node (fst (fst e)) G))).
  rewrite !add_node_ids. tauto.
Qed.

Lemma endpoint_keys (G : Graph) (n : cell) :
  endpoint G n
  <-> exists q, In q (map fst (edges G)) /\ (n = fst q \/ n = snd q).
Proof.
  unfold endpoint. split.
  - intros [e [He Hn]]. exists (fst e). split; [now apply in_map|exact Hn].
  - intros [q [Hq Hn]]. apply in_map_iff in Hq as [e [<- He]]. eauto.
Qed.

Lemma add_edge_closed (e : edge_row) (G : Graph) :
  closed G -> closed (add_edge e G).
Proof.
  intros HG n. rewrite add_edge_ids, endpoint_keys, add_edge_edges. split.
  - intros [H|H].
    + apply HG, endpoint_keys in H as [q [Hq Hn]].
      exists q. split; [now apply update_edge_keys_old|exact Hn].
    + destruct (update_edge_has (is_directed G) (fst e) (snd e) (edges G))
        as [q [Hq Hs]].
      exists q. split; [exact Hq|].
      apply same_edge_cases in Hs as [->|[_ ->]]; simpl; tauto.
  - intros [q [Hq Hn]]. apply update_edge_keys_new in Hq as [Hq| ->].
    + left. apply HG, endpoint_keys. eauto.
    + now right.
Qed.

Lemma build_closed (W : list edge_row) :
  forall G, closed G -> closed (build W G).
Proof.
  induction W as [|e W IH]; intros G HG; [exact HG|].
  apply IH, add_edge_closed, HG.
Qed.

Lemma empty_closed (d : bool) : closed (empty_graph d).
Proof.
  intros n. split; [intros []|]. intros [e [[] _]].
Qed.

Lemma build_directed (W : list edge_row) :
  forall G, is_directed (build W G) = is_directed G.
Proof.
  unfold build.
  induction W as [|e W IH]; intros G; [reflexivity|].
  cbn [fold_left]. rewrite IH. apply add_edge_directed.
Qed.

(** Every edge of the graph is stored under the pair of one of the rows. *)
Lemma build_keys (W : list edge_row) :
  forall G q, In q (map fst (edges (build W G))) ->
              In q (map fst (edges G)) \/ In q (map fst W).
Proof.
  induction W as [|e W IH]; intros G q H; [now left|].
  simpl in H. apply IH in H as [H|H].
  - rewrite add_edge_edges in H.
    apply update_edge_keys_new in H as [H| ->]; [now left|].
    right. now left.
  - right. now right.
Qed.

(** Every row's pair is an edge of the graph, under one orientation. *)
Lemma build_has (W : list edge_row) :
  forall G e, In e W ->
    exists q, In q (map fst (edges (build W G)))
              /\ same_edge (is_directed G) q (fst e) = true.
Proof.
  induction W as [|e' W IH]; intros G e H; [destruct H|].
  destruct H as [<-|H].
  - destruct (update_edge_has (is_directed G) (fst e') (snd e') (edges G))
      as [q [Hq Hs]].
    exists q. split; [|exact Hs]. simpl.
    assert (Hk : forall W' G', In q (map fst (edges G')) ->
                   In q (map fst (edges (build W' G')))).
    { induction W' as [|x W' IHW]; intros G' HG'; [exact HG'|].
      simpl. apply IHW. rewrite add_edge_edges.
      now apply update_edge_keys_old. }
    apply Hk. now rewrite add_edge_edges.
  - simpl. destruct (IH (add_edge e' G) e H) as [q [Hq Hs]].
    rewrite add_edge_directed in Hs. eauto.
Qed.

End GraphBuild.

(** ** Weights on the edges of the graph *)

Section EdgeWeights.

Lemma same_edge_flip (p : edge_key) : same_edge false (flip p) p = true.
Proof.
  unfold same_edge. rewrite (key_eqb_refl (flip p)). simpl.
  apply orb_true_r.
Qed.

Lemma same_edge_sym (d : bool) (q p : edge_key) :
  same_edge d q p = true -> same_edge d p q = true.
Proof.
  intros H. apply same_edge_cases in H as [->|[-> ->]].
  - apply same_edge_refl.
  - unfold same_edge. rewrite flip_flip, key_eqb_refl. apply orb_true_r.
Qed.

Lemma same_edge_trans (d : bool) (a b c : edge_key) :
  same_edge d a b = true -> same_edge d b c = true -> same_edge d a c = true.
Proof.
  intros H1 H2.
  apply same_edge_cases in H1 as [->|[-> ->]]; [exact H2|].
  apply same_edge_cases in H2 as [->|[_ ->]].
  - apply same_edge_flip.
  - rewrite flip_flip. apply same_edge_refl.
Qed.

Variable d : bool.
Variable p : edge_key.
Variable Q : option nat -> Prop.

Lemma update_edge_weights_in (r : edge_row) (es : list edge_row) :
  (same_edge d (fst r) p = true -> Q (snd r)) ->
  weights_in d p Q es -> weights_in d p Q (update_edge d (fst r) (snd r) es).
Proof.
  intros Hr. induction es as [|[q old] es IH]; intros Hes e He Hs.
  - destruct He as [<-|[]]. now apply Hr.
  - simpl in He. destruct (same_edge d q (fst r)) eqn:Eq.
    + destruct He as [<-|He].
      * simpl in Hs |- *.
        assert (Hrp : same_edge d (fst r) p = true)
          by (eapply same_edge_trans; [apply same_edge_sym; exact Eq|exact Hs]).
        destruct (snd r) eqn:Ew.
        -- now apply Hr.
        -- apply (Hes (q, old)); [now left|exact Hs].
      * apply (Hes e); [now right|exact Hs].
    + destruct He as [<-|He].
      * apply (Hes (q, old)); [now left|exact Hs].
      * apply IH; [|exact He|exact Hs].
        intros x Hx. apply Hes. now right.
Qed.

Lemma build_weights_in (W : list edge_row) :
  forall G, is_directed G = d ->
    (forall r, In r W -> same_edge d (fst r) p = true -> Q (snd r)) ->
    weights_in d p Q (edges G) -> weights_in d p Q (edges (build W G)).
Proof.
  induction W as [|r W IH]; intros G Hd HW HG; [exact HG|].
  simpl. apply IH.
  - now rewrite add_edge_directed.
  - intros x Hx. apply HW. now right.
  - rewrite add_edge_edges, Hd. apply update_edge_weights_in; [|exact HG].
    apply HW. now left.
Qed.

(** The weight that [G.get_edge_data] reports for [p] is in [Q], and it
    reports one as soon as one row is the edge [p]. *)
Lemma build_edge_data (W : list edge_row) (r : edge_row) :
  In r W -> same_edge d (fst r) p = true ->
  (forall x, In x W -> same_edge d (fst x) p = true -> Q (snd x)) ->
  exists w, edge_data (build W (empty_graph d)) p = Some w /\ Q w.
Proof.
  intros Hr Hrp HW.
  assert (HI : weights_in d p Q (edges (build W (empty_graph d)))).
  { apply build_weights_in; [reflexivity|exact HW|]. intros e []. }
  destruct (build_has W (empty_graph d) r Hr) as [q [Hq Hs]].
  simpl in Hs.
  unfold edge_data. rewrite build_directed. simpl.
  destruct (find (fun e => same_edge d (fst e) p)
                 (edges (build W (empty_graph d)))) as [e|] eqn:F.
  - apply find_some in F as [He Hep]. exists (snd e).
    split; [reflexivity|]. now apply HI.
  - apply in_map_iff in Hq as [e [<- He]].
    apply (find_none _ _ F) in He. simpl in He.
    rewrite (same_edge_trans _ _ _ _ Hs Hrp) in He. discriminate.
Qed.

End EdgeWeights.

(** ** Node attributes never touch the node set or the edges *)

Section Attributes.

Lemma set_node_attr_ids (n : cell) (name : string) (v : cell)
      (ns : list (cell * attrs)) :
  map fst (set_node_attr n name v ns) = map fst ns.
Proof.
  unfold set_node_attr. rewrite map_map. apply map_ext.
  intros nd. cbv beta. destruct (cell_eqb _ _); reflexivity.
Qed.

Lemma set_node_attributes_frame (vals : list (cell * cell)) (name : string) :
  forall G, node_ids (set_node_attributes G vals name) = node_ids G
            /\ edges (set_node_attributes G vals name) = edges G
            /\ is_directed (set_node_attributes G vals name) = is_directed G.
Proof.
  unfold set_node_attributes.
  induction vals as [|kv vals IH]; intros G; [now repeat split|].
  cbn [fold_left]. destruct (IH (mkGraph (is_directed G)
    (set_node_attr (fst kv) name (snd kv) (nodes G)) (edges G)))
    as [H1 [H2 H3]].
  rewrite H1, H2, H3. unfold node_ids. simpl.
  now rewrite set_node_attr_ids.
Qed.

Lemma bind_node_attribute_frame (cfg : Config) (df : DataFrame)
      (rows : list row) (G G' : Graph) (attr : string) :
  bind_node_attribute cfg df rows G attr = Ok G' ->
  node_ids G' = node_ids G /\ edges G' = edges G
  /\ is_directed G' = is_directed G.
Proof.
  unfold bind_node_attribute. intros H.
  apply bind_ok in H as [a [_ H]]. apply bind_ok in H as [i [_ H]].
  apply bind_ok in H as [dct [_ H]]. injection H as <-.
  apply set_node_attributes_frame.
Qed.

Lemma attribute_loop_frame (cfg : Config) (df : DataFrame) (rows : list row)
      (names : list string) :
  forall acc G,
    fold_left
      (fun acc attr => G <- acc ;; bind_node_attribute cfg df rows G attr)
      names acc = Ok G ->
    exists G0, acc = Ok G0 /\ node_ids G = node_ids G0
               /\ edges G = edges G0 /\ is_directed G = is_directed G0.
Proof.
  induction names as [|a names IH]; intros acc G H.
  - exists G. now repeat split.
  - cbn [fold_left] in H. apply IH in H as [G1 [H1 [Hn [He Hd]]]].
    apply bind_ok in H1 as [G0 [-> H1]].
    apply bind_node_attribute_frame in H1 as [Hn1 [He1 Hd1]].
    exists G0. repeat split; congruence.
Qed.

End Attributes.

(** ** The reader (lines 72-77)

    The frame holds the columns of [usecols] only.  The lines that follow
    name the columns of [usecols] and no other, so what they compute on
    the frame is what they would compute on the whole table. *)

Section Reader.

Variable cols : list string.

Lemma at_col_tl (j : nat) (r : row) : at_col (S j) r = at_col j (tl r).
Proof. unfold at_col. destruct r as [|x r]; [now destruct j|reflexivity]. Qed.

Lemma put_tl (j : nat) (v : cell) (r : row) :
  tl (put (S j) v r) = put j v (tl r)
  /\ at_col 0 (put (S j) v r) = at_col 0 r.
Proof. now destruct r. Qed.

Lemma put_head (v : cell) (r : row) :
  tl (put 0 v r) = tl r /\ at_col 0 (put 0 v r) = v.
Proof. now destruct r. Qed.

Lemma get_loc_select (c : string) (header : list string) :
  asked cols c = true ->
  forall j, get_loc c header = Some j ->
            exists k, get_loc c (filter (asked cols) header) = Some k
                      /\ same_column cols header j k.
Proof.
  intros Hc. induction header as [|h hs IH]; intros j Hj; [discriminate|].
  cbn [get_loc] in Hj. cbn [filter].
  destruct (String.eqb h c) eqn:E.
  - apply String.eqb_eq in E. subst h. injection Hj as <-.
    rewrite Hc. exists 0. cbn [get_loc]. rewrite String.eqb_refl.
    split; [reflexivity|]. split.
    + intros r. cbn [select]. now rewrite Hc.
    + intros v r. cbn [select]. rewrite Hc.
      destruct (put_head v r) as [-> ->]. reflexivity.
  - destruct (get_loc c hs) as [j0|] eqn:Ej; [|discriminate].
    injection Hj as <-. destruct (IH j0 eq_refl) as [k [Hk [Hat Hput]]].
    destruct (asked cols h) eqn:Eh.
    + exists (S k). cbn [get_loc]. rewrite E, Hk. split; [reflexivity|]. split.
      * intros r. cbn [select]. rewrite Eh, !at_col_tl. cbn [tl]. apply Hat.
      * intros v r. cbn [select]. rewrite Eh.
        destruct (put_tl j0 v r) as [-> ->]. cbn [put]. now rewrite Hput.
    + exists k. split; [exact Hk|]. split.
      * intros r. cbn [select]. rewrite Eh, at_col_tl. apply Hat.
      * intros v r. cbn [select]. rewrite Eh.
        destruct (put_tl j0 v r) as [-> _]. apply Hput.
Qed.

Lemma get_loc_present (c : string) (header : list string) :
  existsb (String.eqb c) header = true -> exists j, get_loc c header = Some j.
Proof.
  induction header as [|h hs IH]; [discriminate|].
  cbn [existsb get_loc]. rewrite (String.eqb_sym c h).
  destruct (String.eqb h c); [eauto|]. cbn [orb]. intros H.
  destruct (IH H) as [j ->]. cbn [option_map]. eauto.
Qed.

Variable header : list string.

Lemma apply_column_read (f : cell -> cell) (j k : nat) (rows : list row) :
  same_column cols header j k ->
  apply_column f k (map (select cols header) rows)
  = map (select cols header) (apply_column f j rows).
Proof.
  intros [Hat Hput]. unfold apply_column. rewrite !map_map.
  apply map_ext. intros r. now rewrite Hat, Hput.
Qed.

Lemma applymap_row_read (f : cell -> cell) (js ks : list nat) (r : row) :
  Forall2 (same_column cols header) js ks ->
  applymap_row f ks (select cols header r)
  = select cols header (applymap_row f js r).
Proof.
  unfold applymap_row. intros HF.
  assert (H : forall acc,
             fold_left
               (fun acc k => put k (f (at_col k (select cols header r))) acc)
               ks (select cols header acc)
             = select cols header
                      (fold_left (fun acc j => put j (f (at_col j r)) acc)
                                 js acc)).
  { induction HF as [|j k js ks [Hat Hput] _ IH]; intros acc; [reflexivity|].
    cbn [fold_left]. rewrite Hat, Hput. apply IH. }
  apply H.
Qed.

Lemma explode_row_read (j k : nat) (r : row) :
  same_column cols header j k ->
  explode_row k (select cols header r)
  = map (select cols header) (explode_row j r).
Proof.
  intros [Hat Hput]. unfold explode_row. rewrite Hat.
  destruct (at_col j r) as [s| |[|x l]]; try reflexivity.
  - cbn [map]. now rewrite Hput.
  - rewrite map_map. apply map_ext. intros s. apply Hput.
Qed.

Lemma df_explode_read (j k : nat) (rows : list row) :
  same_column cols header j k ->
  df_explode k (map (select cols header) rows)
  = map (select cols header) (df_explode j rows).
Proof.
  intros H. unfold df_explode. induction rows as [|r rows IH]; [reflexivity|].
  cbn [map flat_map]. now rewrite map_app, IH, (explode_row_read j k r H).
Qed.

Lemma explode_all_read (js ks : list nat) :
  Forall2 (same_column cols header) js ks ->
  forall rows,
    fold_left (fun rows k => df_explode k rows) ks
              (map (select cols header) rows)
    = map (select cols header)
          (fold_left (fun rows j => df_explode j rows) js rows).
Proof.
  induction 1 as [|j k js ks H _ IH]; intros rows; [reflexivity|].
  cbn [fold_left]. rewrite (df_explode_read j k rows H). apply IH.
Qed.

Lemma pairs_of_read (s k t u : nat) (rows : list row) :
  same_column cols header s k -> same_column cols header t u ->
  pairs_of k u (map (select cols header) rows) = pairs_of s t rows.
Proof.
  intros [Hs _] [Ht _]. unfold pairs_of.
  induction rows as [|r rows IH]; [reflexivity|].
  cbn [map filter]. rewrite Ht.
  destruct (negb (isna (at_col t r))); cbn [map]; now rewrite ?Hs, ?Ht, IH.
Qed.

(** Lines 86-92 find the same pairs in the frame as in the table. *)
Lemma candidate_pairs_read (cfg : Config) (s k : nat) (ts ks : list nat)
      (rows : list row) :
  same_column cols header s k -> Forall2 (same_column cols header) ts ks ->
  candidate_pairs cfg k ks (map (select cols header) rows)
  = candidate_pairs cfg s ts rows.
Proof.
  intros Hs HF. unfold candidate_pairs.
  assert (E : edge_frame k ks (map (select cols header) rows)
              = edge_frame s ts rows).
  { unfold edge_frame. destruct HF as [|t u ts ks Ht HF]; [reflexivity|].
    f_equal. cbn [flat_map]. rewrite (pairs_of_read s k t u rows Hs Ht).
    f_equal. induction HF as [|t' u' ts ks Ht' _ IH]; [reflexivity|].
    cbn [flat_map]. now rewrite (pairs_of_read s k t' u' rows Hs Ht'), IH. }
  now rewrite E.
Qed.

End Reader.

Section ReadFrame.

Variable cols : list string.
Variable file df : DataFrame.
Hypothesis Hread : read_csv cols file = Ok df.

Lemma read_csv_ok :
  forallb (fun c => existsb (String.eqb c) (columns file)) cols = true
  /\ columns df = filter (asked cols) (columns file)
  /\ values df = map (select cols (columns file)) (values file).
Proof.
  unfold read_csv in Hread.
  destruct (forallb _ cols); [|discriminate]. injection Hread as <-.
  now repeat split.
Qed.

(** A name of [usecols] has a position in the table and one in the
    frame, and they hold the same column. *)
Lemma loc_read (c : string) :
  In c cols ->
  exists j k, loc file c = Ok j /\ loc df c = Ok k
              /\ same_column cols (columns file) j k.
Proof.
  intros Hc. destruct read_csv_ok as [Hall [Hcols _]].
  rewrite forallb_forall in Hall.
  destruct (get_loc_present c (columns file) (Hall c Hc)) as [j Hj].
  assert (Ha : asked cols c = true).
  { unfold asked. apply existsb_exists. exists c. split; [exact Hc|].
    apply String.eqb_refl. }
  destruct (get_loc_select cols c (columns file) Ha j Hj) as [k [Hk Hsame]].
  exists j, k. unfold loc. rewrite Hcols, Hj, Hk.
  split; [reflexivity|]. split; [reflexivity|exact Hsame].
Qed.

Lemma mapM_loc_read (ts : list string) :
  incl ts cols ->
  exists js ks, mapM (loc file) ts = Ok js /\ mapM (loc df) ts = Ok ks
                /\ Forall2 (same_column cols (columns file)) js ks.
Proof.
  induction ts as [|t ts IH]; intros Hin.
  - exists [], []. split; [reflexivity|]. split; [reflexivity|constructor].
  - destruct (loc_read t (Hin t (or_introl eq_refl))) as [j [k [Hj [Hk Hs]]]].
    destruct (IH (fun x Hx => Hin x (or_intror Hx)))
      as [js [ks [Hjs [Hks HF]]]].
    exists (j :: js), (k :: ks). cbn [mapM]. rewrite Hj, Hk. cbn [bind].
    rewrite Hjs, Hks. cbn [bind].
    split; [reflexivity|]. split; [reflexivity|now constructor].
Qed.

(** Lines 79-84 on the frame give the rows they give on the table, under
    the columns of [usecols]. *)
Lemma normalize_read (L : Libs) (cfg : Config) :
  In (source cfg) cols -> incl (target cfg) cols ->
  exists s ts rows k ks,
    normalize L cfg file = Ok (s, ts, rows)
    /\ normalize L cfg df
       = Ok (k, ks, map (select cols (columns file)) rows)
    /\ same_column cols (columns file) s k
    /\ Forall2 (same_column cols (columns file)) ts ks.
Proof.
  intros Hs Ht.
  destruct (loc_read _ Hs) as [s [k [Hls [Hlk Hsk]]]].
  destruct (mapM_loc_read _ Ht) as [ts [ks [Hts [Hks HF]]]].
  destruct read_csv_ok as [_ [_ Hv]].
  unfold normalize. rewrite Hls, Hlk. cbn [bind]. rewrite Hts, Hks.
  cbn [bind]. rewrite Hv.
  set (f := fun c => source_map cfg (astype_str L c)).
  set (g := fun c => target_map cfg (astype_str L c)).
  assert (E2 : map (applymap_row g ks)
                   (apply_column f k
                      (map (select cols (columns file)) (values file)))
               = map (select cols (columns file))
                     (map (applymap_row g ts)
                          (apply_column f s (values file)))).
  { rewrite (apply_column_read cols _ f s k _ Hsk), !map_map. apply map_ext.
    intros r. now apply applymap_row_read. }
  rewrite E2.
  destruct (explode cfg).
  - rewrite (explode_all_read cols _ (s :: ts) (k :: ks))
      by now constructor.
    eexists s, ts, _, k, ks.
    split; [reflexivity|]. split; [reflexivity|]. now split.
  - eexists s, ts, _, k, ks.
    split; [reflexivity|]. split; [reflexivity|]. now split.
Qed.

Lemma bind_node_attribute_read (cfg : Config) (rows : list row) (G : Graph)
      (attr : string) :
  In attr cols -> In (index_column cfg) cols ->
  bind_node_attribute cfg df (map (select cols (columns file)) rows) G attr
  = bind_node_attribute cfg file rows G attr.
Proof.
  intros Ha Hi. unfold bind_node_attribute.
  destruct (loc_read _ Ha) as [a [a' [-> [-> [Hat _]]]]].
  destruct (loc_read _ Hi) as [i [i' [-> [-> [Hit _]]]]].
  cbn [bind]. rewrite !map_map.
  rewrite (map_ext _ _ (fun r => Hit r)), (map_ext _ _ (fun r => Hat r)).
  reflexivity.
Qed.

Lemma attribute_loop_read (cfg : Config) (rows : list row)
      (names : list string) :
  incl names cols -> In (index_column cfg) cols ->
  forall acc,
    fold_left
      (fun acc attr =>
         G <- acc ;;
         bind_node_attribute cfg df (map (select cols (columns file)) rows)
                             G attr)
      names acc
    = fold_left
        (fun acc attr => G <- acc ;; bind_node_attribute cfg file rows G attr)
        names acc.
Proof.
  intros Hn Hi. induction names as [|a names IH]; intros acc; [reflexivity|].
  cbn [fold_left]. rewrite IH by (intros x Hx; apply Hn; now right).
  f_equal. destruct acc as [G|e]; [|reflexivity]. cbn [bind].
  apply bind_node_attribute_read; [apply Hn; now left|exact Hi].
Qed.

End ReadFrame.

Lemma read_csv_total (cols : list string) (file : DataFrame) :
  (forall c, In c cols -> In c (columns file)) ->
  exists df, read_csv cols file = Ok df.
Proof.
  intros H. unfold read_csv.
  assert (E : forallb (fun c => existsb (String.eqb c) (columns file)) cols
              = true).
  { apply forallb_forall. intros c Hc. apply existsb_exists.
    exists c. split; [now apply H|apply String.eqb_refl]. }
  rewrite E. eauto.
Qed.

Lemma read_csv_missing (cols : list string) (file : DataFrame) (c : string) :
  In c cols -> ~ In c (columns file) -> read_csv cols file = Err ValueError.
Proof.
  intros Hc Hm. unfold read_csv.
  destruct (forallb _ cols) eqn:E; [|reflexivity].
  rewrite forallb_forall in E. specialize (E c Hc).
  apply existsb_exists in E as [h [Hh E]]. apply String.eqb_eq in E.
  subst h. now elim Hm.
Qed.

(** With no node index, line 76 asks for the source, the targets and the
    attribute columns. *)
Lemma usecols_no_index (cfg : Config) :
  node_index cfg = None \/ node_index cfg = Some "" ->
  usecols cfg
  = Ok (source cfg :: target cfg ++ node_attrs cfg ++ edge_attrs cfg).
Proof. unfold usecols. now intros [-> | ->]. Qed.

Lemma usecols_ok (cfg : Config) (cols : list string) :
  usecols cfg = Ok cols ->
  cols = source cfg :: target cfg ++ node_attrs cfg ++ edge_attrs cfg
  /\ index_column cfg = source cfg.
Proof.
  unfold usecols, index_column.
  destruct (node_index cfg) as [[|c r]|]; intros H;
    try discriminate; injection H as <-; now split.
Qed.

Lemma usecols_names (cfg : Config) (cols : list string) :
  usecols cfg = Ok cols ->
  In (source cfg) cols /\ incl (target cfg) cols
  /\ incl (node_attrs cfg) cols /\ In (index_column cfg) cols.
Proof.
  intros H. destruct (usecols_ok cfg cols H) as [-> ->].
  split; [now left|]. split; [|split; [|now left]].
  - intros x Hx. right. apply in_or_app. now left.
  - intros x Hx. right. apply in_or_app. right. apply in_or_app. now left.
Qed.

(** The stages of [edge_graph] behind a result: the reader accepted the
    table, and the graph is the one lines 79-106 make of the table. *)
Lemma edge_graph_ok (L : Libs) (cfg : Config) (file fr : DataFrame)
      (G : Graph) :
  edge_graph L cfg file = Ok (fr, G) ->
  exists cols df rows,
    usecols cfg = Ok cols /\ read_csv cols file = Ok df
    /\ engine_graph L cfg file = Ok (rows, G)
    /\ fr = mkDF (columns df) (map (select cols (columns file)) rows).
Proof.
  unfold edge_graph, engine_graph. intros H.
  apply bind_ok in H as [cols [Hu H]]. apply bind_ok in H as [df [Hr H]].
  apply bind_ok in H as [n [Hn H]]. apply bind_ok in H as [E [HE H]].
  apply bind_ok in H as [W [HW H]]. apply bind_ok in H as [G0 [HG H]].
  injection H as <- <-.
  destruct (usecols_names cfg cols Hu) as [Hs [Ht _]].
  destruct (normalize_read cols file df Hr L cfg Hs Ht)
    as [s [ts [rows [k [ks [Hnf [Hnd [Hsk HF]]]]]]]].
  rewrite Hnd in Hn. injection Hn as <-. cbn [fst snd] in HE |- *.
  rewrite (candidate_pairs_read cols _ cfg s k ts ks rows Hsk HF) in HE.
  exists cols, df, rows. rewrite Hnf. cbn [bind fst snd].
  rewrite HE. cbn [bind]. rewrite HW. cbn [bind]. rewrite HG.
  now repeat split.
Qed.

(** [convert_to_graph] is the reader followed by lines 79-115 on the
    table of the file. *)
Lemma convert_to_graph_engine (L : Libs) (cfg : Config) (file : DataFrame) :
  convert_to_graph L cfg file
  = (cols <- usecols cfg ;; _ <- read_csv cols file ;; engine L cfg file).
Proof.
  unfold convert_to_graph, edge_graph, engine, engine_graph.
  destruct (usecols cfg) as [cols|e] eqn:Hu; [|reflexivity]. cbn [bind].
  destruct (read_csv cols file) as [df|e] eqn:Hr; [|reflexivity]. cbn [bind].
  destruct (usecols_names cfg cols Hu) as [Hs [Ht [Hn Hi]]].
  destruct (normalize_read cols file df Hr L cfg Hs Ht)
    as [s [ts [rows [k [ks [Hnf [Hnd [Hsk HF]]]]]]]].
  rewrite Hnf, Hnd. cbn [bind fst snd].
  rewrite (candidate_pairs_read cols _ cfg s k ts ks rows Hsk HF).
  destruct (candidate_pairs cfg s ts rows) as [E|e]; [|reflexivity].
  cbn [bind]. destruct (weigh cfg E) as [W|e]; [|reflexivity]. cbn [bind].
  destruct (from_pandas_edgelist L (directed cfg) (weighted cfg)
                                 (edge_attrs cfg) W) as [G|e];
    [|reflexivity].
  cbn [bind fst snd values].
  rewrite <- (attribute_loop_read cols file df Hr cfg rows _ Hn Hi).
  reflexivity.
Qed.

Lemma convert_to_graph_read (L : Libs) (cfg : Config) (file : DataFrame)
      (G : Graph) :
  convert_to_graph L cfg file = Ok G ->
  engine L cfg file = Ok G
  /\ exists cols df, usecols cfg = Ok cols /\ read_csv cols file = Ok df.
Proof.
  rewrite convert_to_graph_engine. intros H.
  apply bind_ok in H as [cols [Hu H]]. apply bind_ok in H as [df [Hr H]].
  split; [exact H|eauto].
Qed.

(** ** The stages of [convert_to_graph] behind a result *)

Section Pipeline.

Lemma from_pandas_edgelist_ok (L : Libs) (d w : bool) (ea : list string)
      (W : list edge_row) (G : Graph) :
  from_pandas_edgelist L d w ea W = Ok G -> G = build W (empty_graph d).
Proof.
  unfold from_pandas_edgelist, build. intros H.
  destruct ((if w then ["weight"] else []) ++ ea).
  - destruct (nx_legacy L); [|discriminate].
    destruct (unhashable W); [discriminate|]. now injection H as <-.
  - destruct (forallb _ _); [|discriminate].
    destruct (unhashable W); [discriminate|]. now injection H as <-.
Qed.

Lemma weigh_ok (cfg : Config) (E : list edge_key) (W : list edge_row) :
  weigh cfg E = Ok W ->
  map fst W = E
  /\ (weighted cfg = true ->
      W = map (fun p => (p, Some (occurrences E p))) E
      /\ forallb counted E = true).
Proof.
  unfold weigh. destruct (weighted cfg); intros H.
  - apply bind_ok in H as [W0 [H0 H]]. injection H as <-.
    apply add_weights_ok in H0 as [-> Hc].
    rewrite !map_map. simpl. rewrite map_id. split; [reflexivity|].
    intros _. now split.
  - injection H as <-. rewrite map_map. simpl. rewrite map_id.
    split; [reflexivity|discriminate].
Qed.

Lemma convert_to_graph_ok (L : Libs) (cfg : Config) (df : DataFrame)
      (G : Graph) :
  convert_to_graph L cfg df = Ok G ->
  exists E W frame G0,
    surviving_pairs L cfg df = Ok E
    /\ weigh cfg E = Ok W
    /\ edge_graph L cfg df = Ok (frame, G0)
    /\ G0 = build W (empty_graph (directed cfg))
    /\ node_ids G = node_ids G0 /\ edges G = edges G0
    /\ is_directed G = directed cfg.
Proof.
  unfold convert_to_graph. intros H.
  apply bind_ok in H as [[fr G0] [Hg H]].
  apply attribute_loop_frame in H as [G1 [H1 [Hn [He Hd]]]].
  injection H1 as <-. simpl in Hn, He, Hd.
  destruct (edge_graph_ok L cfg df fr G0 Hg) as [cols [df1 [rows [_ [_ [Hg' _]]]]]].
  unfold engine_graph in Hg'.
  apply bind_ok in Hg' as [n [Hn0 Hg']].
  apply bind_ok in Hg' as [E [HE Hg']].
  apply bind_ok in Hg' as [W [HW Hg']].
  apply bind_ok in Hg' as [G2 [HG Hg']].
  injection Hg' as Hrows HG0.
  apply from_pandas_edgelist_ok in HG. subst G2 rows G0.
  exists E, W, fr, (build W (empty_graph (directed cfg))).
  repeat split; try assumption.
  - unfold surviving_pairs. rewrite Hn0. exact HE.
  - rewrite Hd. apply build_directed.
Qed.

End Pipeline.

(** ** Candidate pairs (lines 86-92) *)

Section Candidates.

Lemma pairs_of_in (s t : nat) (rows : list row) (p : edge_key) :
  In p (pairs_of s t rows)
  <-> exists r, In r rows /\ isna (at_col t r) = false
                /\ p = (at_col s r, at_col t r).
Proof.
  unfold pairs_of. rewrite in_map_iff. split.
  - intros [r [<- Hr]]. apply filter_In in Hr as [Hr Hn].
    exists r. apply negb_true_iff in Hn. auto.
  - intros [r [Hr [Hn ->]]]. exists r. split; [reflexivity|].
    apply filter_In. split; [exact Hr|]. now rewrite Hn.
Qed.

(** What lines 86-89 keep: exactly the pairs of a row and a target
    column whose target value is not missing. *)
Lemma edge_frame_in (s : nat) (ts : list nat) (rows : list row)
      (E : list edge_key) (p : edge_key) :
  edge_frame s ts rows = Ok E ->
  (In p E <-> exists t r, In t ts /\ In r rows /\ isna (at_col t r) = false
                          /\ p = (at_col s r, at_col t r)).
Proof.
  unfold edge_frame. destruct ts as [|t0 ts]; [discriminate|].
  intros H. injection H as <-.
  change (pairs_of s t0 rows ++ flat_map (fun t => pairs_of s t rows) ts)
    with (flat_map (fun t => pairs_of s t rows) (t0 :: ts)).
  rewrite in_flat_map. split.
  - intros [t [Ht Hp]]. apply pairs_of_in in Hp as [r Hr]. exists t, r. tauto.
  - intros [t [r [Ht Hr]]]. exists t. split; [exact Ht|].
    apply pairs_of_in. exists r. tauto.
Qed.

Lemma edge_frame_target_present (s : nat) (ts : list nat) (rows : list row)
      (E : list edge_key) (p : edge_key) :
  edge_frame s ts rows = Ok E -> In p E -> isna (snd p) = false.
Proof.
  intros H Hp. apply (edge_frame_in _ _ _ _ p H) in Hp as [t [r [_ [_ [Hn ->]]]]].
  exact Hn.
Qed.

Lemma cell_ne_true (a b : cell) :
  isna b = false -> cell_ne a b = true -> a <> b.
Proof.
  intros Hb H ->. destruct b; try discriminate; unfold cell_ne in H;
    rewrite cell_eqb_refl in H; discriminate.
Qed.

Lemma candidate_pairs_target_present (cfg : Config) (s : nat) (ts : list nat)
      (rows : list row) (E : list edge_key) (p : edge_key) :
  candidate_pairs cfg s ts rows = Ok E -> In p E -> isna (snd p) = false.
Proof.
  unfold candidate_pairs. intros H Hp.
  apply bind_ok in H as [E0 [H0 H]]. injection H as <-.
  apply (@edge_frame_target_present s ts rows E0 p H0).
  destruct (self_loops cfg); [exact Hp|].
  unfold drop_self_loops in Hp. now apply filter_In in Hp.
Qed.

Lemma candidate_pairs_no_loop (cfg : Config) (s : nat) (ts : list nat)
      (rows : list row) (E : list edge_key) (p : edge_key) :
  self_loops cfg = false ->
  candidate_pairs cfg s ts rows = Ok E -> In p E -> fst p <> snd p.
Proof.
  intros Hs H Hp.
  pose proof (candidate_pairs_target_present _ _ _ _ _ _ H Hp) as Hn.
  unfold candidate_pairs in H. rewrite Hs in H.
  apply bind_ok in H as [E0 [_ H]]. injection H as <-.
  unfold drop_self_loops in Hp. apply filter_In in Hp as [_ Hp].
  now apply cell_ne_true.
Qed.

End Candidates.

(** ** Weights *)

(** C6: in undirected mode the two orientations of an edge are counted
    apart.  The pairs and the weight column are those of directed mode;
    a pair met both ways is given its own count, which is less than the
    merged count; and the one undirected edge of the graph ends with the
    count of one of the two orientations, never with their sum. *)
Theorem orientations_counted_apart (L : Libs) (cfg : Config) (df : DataFrame)
        (G : Graph) :
  directed cfg = false -> weighted cfg = true ->
  convert_to_graph L cfg df = Ok G ->
  exists E,
    surviving_pairs L cfg df = Ok E
    /\ surviving_pairs L (with_directed true cfg) df = Ok E
    /\ weigh cfg E = Ok (map (fun p => (p, Some (occurrences E p))) E)
    /\ weigh (with_directed true cfg) E = weigh cfg E
    /\ (forall p, In p E -> In (flip p) E ->
          occurrences E p < occurrences E p + occurrences E (flip p)
          /\ exists k, edge_data G p = Some (Some k)
                       /\ (k = occurrences E p \/ k = occurrences E (flip p))
                       /\ k < occurrences E p + occurrences E (flip p)).
Proof.
  intros Hdir Hw H.
  apply convert_to_graph_ok in H
    as [E [W [rows [G0 [HE [HW [_ [HG0 [_ [He Hd]]]]]]]]]].
  exists E. split; [exact HE|]. split; [exact HE|].
  destruct (weigh_ok _ _ _ HW) as [_ HWw].
  destruct (HWw Hw) as [HWeq _].
  split; [now rewrite <- HWeq|]. split; [reflexivity|].
  intros p Hp Hf.
  pose proof (occurrences_pos E p Hp) as Hp1.
  pose proof (occurrences_pos E (flip p) Hf) as Hf1.
  split; [lia|].
  assert (HD : edge_data G p = edge_data G0 p)
    by (unfold edge_data; rewrite He, Hd, HG0, build_directed; reflexivity).
  rewrite HD, HG0, Hdir.
  destruct (build_edge_data false p
              (fun w => w = Some (occurrences E p)
                        \/ w = Some (occurrences E (flip p))) W
              (p, Some (occurrences E p))) as [w [Hw1 Hw2]].
  - rewrite HWeq. apply in_map_iff. exists p. now split.
  - apply same_edge_refl.
  - intros x Hx Hs. rewrite HWeq in Hx.
    apply in_map_iff in Hx as [q [<- Hq]]. simpl in Hs |- *.
    apply same_edge_cases in Hs as [->|[_ ->]]; [now left|now right].
  - destruct Hw2 as [->| ->].
    + exists (occurrences E p). repeat split; [exact Hw1|now left|lia].
    + exists (occurrences E (flip p)). repeat split; [exact Hw1|now right|lia].
Qed.

(** Two rows [(a, b)] and one row [(b, a)]: the weights are 2 and 1, and
    the undirected edge ends with 1, not 3. *)
Lemma orientations_counted_apart_example :
  weigh undirected_weighted
        [(Str "a", Str "b"); (Str "a", Str "b"); (Str "b", Str "a")]
  = Ok [((Str "a", Str "b"), Some 2); ((Str "a", Str "b"), Some 2);
        ((Str "b", Str "a"), Some 1)]
  /\ convert_to_graph nx_recent undirected_weighted both_ways
     = Ok (mkGraph false [(Str "a", []); (Str "b", [])]
                   [((Str "a", Str "b"), Some 1)])
  /\ exists E,
      surviving_pairs nx_recent undirected_weighted both_ways = Ok E
      /\ surviving_pairs nx_recent (with_directed true undirected_weighted)
                         both_ways = Ok E
      /\ weigh undirected_weighted E
         = Ok (map (fun p => (p, Some (occurrences E p))) E)
      /\ weigh (with_directed true undirected_weighted) E
         = weigh undirected_weighted E
      /\ (forall p, In p E -> In (flip p) E ->
            occurrences E p < occurrences E p + occurrences E (flip p)
            /\ exists k,
                edge_data (mkGraph false [(Str "a", []); (Str "b", [])]
                                   [((Str "a", Str "b"), Some 1)]) p
                = Some (Some k)
                /\ (k = occurrences E p \/ k = occurrences E (flip p))
                /\ k < occurrences E p + occurrences E (flip p)).
Proof.
  split; [reflexivity|]. split; [reflexivity|].
  apply (orientations_counted_apart nx_recent undirected_weighted both_ways);
    reflexivity.
Defined.

(** ** Self-loops *)

(** C4: with self-loops disallowed, every candidate pair whose endpoints
    are equal is dropped before weighting, and no edge of the graph joins
    a node to itself. *)
Theorem no_self_loops (L : Libs) (cfg : Config) (df : DataFrame) (G : Graph) :
  self_loops cfg = false ->
  convert_to_graph L cfg df = Ok G ->
  (exists E, surviving_pairs L cfg df = Ok E
             /\ forall p, In p E -> fst p <> snd p)
  /\ forall e, In e (edges G) -> fst (fst e) <> snd (fst e).
Proof.
  intros Hs H.
  apply convert_to_graph_ok in H
    as [E [W [rows [G0 [HE [HW [_ [HG0 [_ [He _]]]]]]]]]].
  assert (HnoE : forall p, In p E -> fst p <> snd p).
  { intros p Hp. unfold surviving_pairs in HE.
    apply bind_ok in HE as [n [_ HE]].
    now apply (candidate_pairs_no_loop _ _ _ _ _ _ Hs HE). }
  split; [eauto|].
  intros e Hin. rewrite He, HG0 in Hin.
  apply (in_map fst) in Hin. apply build_keys in Hin as [[]|Hin].
  apply HnoE. now rewrite <- (proj1 (weigh_ok _ _ _ HW)).
Qed.

(** The scenario of the specification: the row [(A, A)] leaves no edge. *)
Lemma no_self_loops_scenario :
  (exists E,
      surviving_pairs nx_recent (args (bare_command_line "s" "t")) scenario = Ok E
      /\ forall p, In p E -> fst p <> snd p)
  /\ forall e, In e [((Str "A", Str "B"), Some 2)] -> fst (fst e) <> snd (fst e).
Proof.
  apply (no_self_loops nx_recent (args (bare_command_line "s" "t")) scenario
                       (mkGraph true [(Str "A", []); (Str "B", [])]
                                [((Str "A", Str "B"), Some 2)]));
    reflexivity.
Defined.

(** ** The node set *)

Lemma set_node_attr_absent (n : cell) (name : string) (v : cell)
      (ns : list (cell * attrs)) :
  ~ In n (map fst ns) -> set_node_attr n name v ns = ns.
Proof.
  unfold set_node_attr. induction ns as [|nd ns IH]; intros H; [reflexivity|].
  simpl.
  match goal with
  | |- context [cell_eqb ?a ?b] => destruct (cell_eqb a b) eqn:E
  end.
  - apply cell_eqb_eq in E. exfalso. apply H. now left.
  - rewrite IH; [reflexivity|]. intros Hin. apply H. now right.
Qed.

(** C7: the nodes of the graph are exactly the endpoints of its edges.
    The attribute loop changes neither the node set nor the edges of the
    graph built from the edge list, and an attribute entry whose label is
    no node leaves the graph as it is. *)
Theorem nodes_are_endpoints (L : Libs) (cfg : Config) (df : DataFrame)
        (G : Graph) :
  convert_to_graph L cfg df = Ok G ->
  (forall n, In n (node_ids G) <-> endpoint G n)
  /\ (exists frame G0, edge_graph L cfg df = Ok (frame, G0)
                       /\ node_ids G = node_ids G0 /\ edges G = edges G0)
  /\ (forall label v name, ~ In label (node_ids G) ->
                           set_node_attributes G [(label, v)] name = G).
Proof.
  intros H.
  apply convert_to_graph_ok in H
    as [E [W [frame [G0 [HE [HW [Hg [HG0 [Hn [He _]]]]]]]]]].
  split; [|split].
  - intros n. unfold endpoint. rewrite Hn, He, HG0.
    apply build_closed, empty_closed.
  - exists frame, G0. now repeat split.
  - intros label v name Hl. unfold set_node_attributes. simpl.
    rewrite set_node_attr_absent; [now destruct G|exact Hl].
Qed.

(** A row without a mention: [C] has a colour and no edge, so it is not a
    node, and the graph has the nodes of its one edge only. *)
Lemma nodes_are_endpoints_example :
  convert_to_graph nx_recent mentions_with_colour orphan_colour
  = Ok (mkGraph true [(Str "A", [("c", Str "red")]); (Str "bob", [])]
                [((Str "A", Str "bob"), Some 1)])
  /\ (forall n,
         In n [Str "A"; Str "bob"]
         <-> endpoint (mkGraph true [(Str "A", [("c", Str "red")]); (Str "bob", [])]
                               [((Str "A", Str "bob"), Some 1)]) n).
Proof.
  split; [reflexivity|].
  exact (proj1 (nodes_are_endpoints nx_recent mentions_with_colour orphan_colour
                  (mkGraph true [(Str "A", [("c", Str "red")]); (Str "bob", [])]
                           [((Str "A", Str "bob"), Some 1)])
                  eq_refl)).
Defined.

(** ** Empty input *)

Section EmptyInput.

Lemma get_loc_in (c : string) (cols : list string) :
  In c cols -> exists j, get_loc c cols = Some j.
Proof.
  induction cols as [|h cols IH]; intros H; [destruct H|].
  simpl. destruct (String.eqb h c) eqn:E; [eauto|].
  destruct H as [->|H]; [now rewrite String.eqb_refl in E|].
  destruct (IH H) as [j ->]. simpl. eauto.
Qed.

Lemma get_loc_none (c : string) : get_loc c [] = None.
Proof. reflexivity. Qed.

Lemma loc_in (df : DataFrame) (c : string) :
  In c (columns df) -> exists j, loc df c = Ok j.
Proof.
  intros H. unfold loc. destruct (get_loc_in c (columns df) H) as [j ->].
  eauto.
Qed.







End EmptyInput.




(** ** Where the code leaves the specification *)

(** C2: the attribute map is not what the specification describes.
    [drop_duplicates] compares the values alone, so of two nodes with the
    same attribute value the second gets no entry, although a row gives
    it one; and a later, different value for a node is lost when another
    node showed that value first. *)
Theorem shared_value_drops_the_second_node :
  node_attr_dict [Str "A"; Str "B"] [Str "x"; Str "x"]
  = Ok [(Str "A", Str "x")]
  /\ node_attr_dict [Str "A"; Str "B"; Str "A"] [Str "1"; Str "2"; Str "2"]
     = Ok [(Str "A", Str "1"); (Str "B", Str "2")]
  /\ convert_to_graph nx_recent with_colour same_colour
     = Ok (mkGraph true [(Str "A", [("c", Str "x")]); (Str "B", [])]
                   [((Str "A", Str "B"), Some 1); ((Str "B", Str "A"), Some 1)]).
Proof.
  repeat split; reflexivity.
Qed.

(** C5: a row whose source is missing is kept by the filter on missing
    targets and by the filter on self-loops, and then makes the weight
    lookup of line 96 raise [KeyError], since [value_counts] left the row
    out; without weighting the same row becomes an edge. *)
Theorem missing_source_raises_with_weights :
  surviving_pairs nx_recent (mentions_on_source true) missing_source
  = Ok [(NaN, Str "x")]
  /\ convert_to_graph nx_recent (mentions_on_source true) missing_source
     = Err KeyError
  /\ convert_to_graph nx_old (mentions_on_source true) missing_source
     = Err KeyError
  /\ convert_to_graph nx_old (mentions_on_source false) missing_source
     = Ok (mkGraph true [(NaN, []); (Str "x", [])] [((NaN, Str "x"), None)]).
Proof.
  repeat split; reflexivity.
Qed.

(** ** Further properties of the code *)

(** The hashtag example of the specification: a hashtag needs more than
    two characters, its [#] included, and keeps its [#]. *)
Theorem find_hashtags_example :
  find_hashtags "#ai #x #data" = ["#ai"; "#data"]
  /\ find_hashtags "#AI #" = ["#ai"].
Proof.
  split; reflexivity.
Qed.

(** The explosion example of the specification: a row whose target
    extracts to [b] and [c] becomes two rows. *)
Theorem explosion_example (L : Libs) :
  normalize L explosion_scenario
            (mkDF ["source"; "target"] [[Str "A"; Str "b,c"]])
  = Ok (0, [1], [[Str "A"; Str "b"]; [Str "A"; Str "c"]]).
Proof.
  reflexivity.
Qed.

(** What lines 86-89 do with missing values: a pair is kept exactly when
    its target value is present, so no kept pair has a missing target,
    and a row whose source is missing is kept with each present target. *)
Theorem missing_targets_dropped_missing_sources_kept
        (s : nat) (ts : list nat) (rows : list row) (E : list edge_key) :
  edge_frame s ts rows = Ok E ->
  (forall p, In p E -> snd p <> NaN)
  /\ (forall t r, In t ts -> In r rows -> at_col t r <> NaN ->
                  In (at_col s r, at_col t r) E).
Proof.
  intros H. split.
  - intros p Hp Hn. apply (edge_frame_target_present _ _ _ _ _ H) in Hp.
    rewrite Hn in Hp. discriminate.
  - intros t r Ht Hr Hn. apply (edge_frame_in _ _ _ _ _ H).
    exists t, r. repeat split; try assumption.
    destruct (at_col t r); try reflexivity. now elim Hn.
Qed.

Lemma missing_targets_dropped_missing_sources_kept_example :
  (forall p, In p [(NaN, Str "x")] -> snd p <> NaN)
  /\ (forall t r, In t [1] -> In r [[NaN; Str "x"]; [Str "A"; NaN]] ->
                  at_col t r <> NaN ->
                  In (at_col 0 r, at_col t r) [(NaN, Str "x")]).
Proof.
  apply (missing_targets_dropped_missing_sources_kept
           0 [1] [[NaN; Str "x"]; [Str "A"; NaN]]).
  reflexivity.
Defined.

(** A [node_index] that names a column makes line 76 raise [TypeError]:
    a list and a string cannot be added. *)
Theorem node_index_raises (L : Libs) (cfg : Config) (df : DataFrame)
        (c : ascii) (r : string) :
  node_index cfg = Some (String c r) ->
  convert_to_graph L cfg df = Err TypeError.
Proof.
  intros H. unfold convert_to_graph, edge_graph, usecols.
  rewrite H. reflexivity.
Qed.

Lemma node_index_raises_example :
  convert_to_graph nx_recent
    (mkConfig "s" ["t"] [] ["c"] (Some "s") identity identity
              true true false true)
    same_colour
  = Err TypeError.
Proof.
  apply (node_index_raises nx_recent _ same_colour "s"%char ""). reflexivity.
Defined.

(** An edge-attribute column never reaches the graph: [E] holds the two
    endpoint columns and [weight] only, so any other name makes
    [from_pandas_edgelist] raise. *)
Theorem edge_attribute_column_raises (L : Libs) (cfg : Config)
        (df : DataFrame) (a : string) (G : Graph) :
  In a (edge_attrs cfg) -> a <> "weight" ->
  convert_to_graph L cfg df <> Ok G.
Proof.
  intros Ha Hne H. unfold convert_to_graph in H.
  apply bind_ok in H as [[fr G0] [Hg _]]. unfold edge_graph in Hg.
  apply bind_ok in Hg as [u [_ Hg]]. apply bind_ok in Hg as [df1 [_ Hg]].
  apply bind_ok in Hg as [n [_ Hg]].
  apply bind_ok in Hg as [E [_ Hg]]. apply bind_ok in Hg as [W [_ Hg]].
  apply bind_ok in Hg as [G2 [HG _]].
  unfold from_pandas_edgelist in HG.
  assert (Hin : In a ((if weighted cfg then ["weight"] else []) ++ edge_attrs cfg))
    by (apply in_or_app; now right).
  destruct ((if weighted cfg then ["weight"] else []) ++ edge_attrs cfg)
    as [|x l] eqn:El; [destruct Hin|].
  destruct (forallb _ (x :: l)) eqn:F; [|discriminate].
  rewrite forallb_forall in F. specialize (F a Hin).
  apply andb_true_iff in F as [_ F]. apply String.eqb_eq in F.
  now apply Hne.
Qed.

Lemma edge_attribute_column_raises_example :
  convert_to_graph nx_recent
    (mkConfig "s" ["t"] ["c"] [] None identity identity true true false true)
    same_colour
  <> Ok (empty_graph true).
Proof.
  apply (edge_attribute_column_raises nx_recent _ same_colour "c").
  - now left.
  - discriminate.
Defined.

(** ** Extractors that return one string: the engine does not raise *)

Section Scalars.

Lemma at_col_nil (i : nat) : at_col i [] = NaN.
Proof. unfold at_col. now destruct i. Qed.

Lemma at_put_same (j : nat) (v : cell) (r : row) :
  at_col j (put j v r) = v.
Proof.
  revert r. induction j as [|j IH]; intros [|h r]; simpl; try reflexivity.
  - apply (IH []).
  - apply IH.
Qed.

Lemma at_put_other (i j : nat) (v : cell) (r : row) :
  i <> j -> at_col i (put j v r) = at_col i r.
Proof.
  unfold at_col. revert i r.
  induction j as [|j IH]; intros [|i] [|h r] H; cbn [put nth];
    try reflexivity; try (now elim H).
  - now destruct i.
  - rewrite IH by lia. now destruct i.
  - apply IH. lia.
Qed.

Lemma applymap_row_at (f : cell -> cell) (r : row) (i : nat) (js : list nat) :
  forall acc,
    at_col i (fold_left (fun acc j => put j (f (at_col j r)) acc) js acc)
    = if in_dec Nat.eq_dec i js then f (at_col i r) else at_col i acc.
Proof.
  induction js as [|j js IH]; intros acc; [reflexivity|].
  cbn [fold_left]. rewrite IH.
  destruct (in_dec Nat.eq_dec i js) as [Hin|Hout];
    destruct (in_dec Nat.eq_dec i (j :: js)) as [Hin'|Hout'];
    try reflexivity.
  - elim Hout'. now right.
  - destruct Hin' as [->|Hin']; [apply at_put_same|now elim Hout].
  - apply at_put_other. intros ->. apply Hout'. now left.
Qed.

Lemma applymap_row_col (f : cell -> cell) (r : row) (i : nat) (js : list nat) :
  at_col i (applymap_row f js r)
  = if in_dec Nat.eq_dec i js then f (at_col i r) else at_col i r.
Proof. apply applymap_row_at. Qed.




End Scalars.



(** ** What the extractors return *)

Section Extractors.

Lemma lower_char_idem (c : ascii) :
  PyStr.lower_char (PyStr.lower_char c) = PyStr.lower_char c.
Proof.
  destruct c as [[] [] [] [] [] [] [] []]; reflexivity.
Qed.

Lemma isspace_lower_char (c : ascii) :
  PyStr.isspace (PyStr.lower_char c) = PyStr.isspace c.
Proof.
  destruct c as [[] [] [] [] [] [] [] []]; reflexivity.
Qed.

Lemma lower_append (a b : string) :
  PyStr.lower (a ++ b) = (PyStr.lower a ++ PyStr.lower b)%string.
Proof.
  induction a as [|c a IH]; simpl; [reflexivity|now rewrite IH].
Qed.

Lemma lower_is_lower_case (s : string) :
  all_chars lower_case (PyStr.lower s) = true.
Proof.
  induction s as [|c s IH]; [reflexivity|].
  simpl. rewrite IH. unfold lower_case. rewrite lower_char_idem.
  now rewrite Ascii.eqb_refl.
Qed.

Lemma lower_fixed (s : string) :
  all_chars lower_case s = true -> PyStr.lower s = s.
Proof.
  induction s as [|c s IH]; [reflexivity|].
  simpl. intros H. apply andb_true_iff in H as [Hc Hs].
  apply Ascii.eqb_eq in Hc. now rewrite Hc, IH.
Qed.

Lemma lower_idem (s : string) : PyStr.lower (PyStr.lower s) = PyStr.lower s.
Proof. apply lower_fixed, lower_is_lower_case. Qed.

Lemma all_chars_append (P : ascii -> bool) (a b : string) :
  all_chars P (a ++ b) = all_chars P a && all_chars P b.
Proof.
  induction a as [|c a IH]; simpl; [reflexivity|].
  now rewrite IH, andb_assoc.
Qed.

Lemma eqb_empty (s : string) : String.eqb s "" = true <-> s = "".
Proof. apply String.eqb_eq. Qed.

(** The tokens of [split] carry every property of the characters of the
    text. *)
Lemma split_from_chars (P : ascii -> bool) (s : string) :
  forall tok t,
    all_chars P tok = true -> all_chars P s = true ->
    In t (PyStr.split_from tok s) -> all_chars P t = true.
Proof.
  induction s as [|c s IH]; intros tok t Htok Hs Hin.
  - simpl in Hin. destruct (String.eqb tok ""); [destruct Hin|].
    destruct Hin as [<-|[]]. exact Htok.
  - simpl in Hs. apply andb_true_iff in Hs as [Hc Hs].
    simpl in Hin. destruct (PyStr.isspace c).
    + destruct (String.eqb tok "").
      * now apply (IH "" t).
      * destruct Hin as [<-|Hin]; [exact Htok|now apply (IH "" t)].
    + apply (IH (tok ++ String c "")%string t); [|exact Hs|exact Hin].
      rewrite all_chars_append, Htok. simpl. now rewrite Hc.
Qed.

(** A token is not empty and holds no whitespace. *)
Lemma split_from_tokens (s : string) :
  forall tok t,
    all_chars not_space tok = true ->
    In t (PyStr.split_from tok s) ->
    all_chars not_space t = true /\ t <> "".
Proof.
  induction s as [|c s IH]; intros tok t Htok Hin.
  - simpl in Hin. destruct (String.eqb tok "") eqn:E; [destruct Hin|].
    destruct Hin as [<-|[]]. split; [exact Htok|].
    intros ->. discriminate.
  - simpl in Hin. destruct (PyStr.isspace c) eqn:Ec.
    + destruct (String.eqb tok "") eqn:E.
      * now apply (IH "" t).
      * destruct Hin as [<-|Hin]; [|now apply (IH "" t)].
        split; [exact Htok|]. intros ->. discriminate.
    + apply (IH (tok ++ String c "")%string t); [|exact Hin].
      rewrite all_chars_append, Htok. simpl. unfold not_space.
      now rewrite Ec.
Qed.

Lemma lstrip_chars (P : ascii -> bool) (p : ascii) (s : string) :
  all_chars P s = true -> all_chars P (PyStr.lstrip p s) = true.
Proof.
  induction s as [|c s IH]; intros H; [reflexivity|].
  simpl. destruct (Ascii.eqb c p); [|exact H].
  simpl in H. apply andb_true_iff in H as [_ H]. now apply IH.
Qed.

Lemma lstrip_startswith (p : ascii) (s : string) :
  PyStr.startswith p (PyStr.lstrip p s) = false.
Proof.
  induction s as [|c s IH]; [reflexivity|].
  simpl. destruct (Ascii.eqb c p) eqn:E; [exact IH|]. simpl. exact E.
Qed.

(** A whitespace character ends the token being read. *)
Lemma split_from_space (a b : string) (ws : ascii) :
  PyStr.isspace ws = true ->
  forall tok,
    PyStr.split_from tok (a ++ String ws b)
    = PyStr.split_from tok a ++ PyStr.split b.
Proof.
  intros Hws. induction a as [|c a IH]; intros tok.
  - simpl. rewrite Hws. unfold PyStr.split.
    now destruct (String.eqb tok "").
  - simpl. destruct (PyStr.isspace c).
    + destruct (String.eqb tok ""); [apply IH|].
      simpl. now rewrite IH.
    + apply IH.
Qed.

End Extractors.

(** Every mention that [find_mentions] returns is free of whitespace, is
    in lower case and does not start with an [@]; and there are no more
    mentions than tokens in the text. *)
Theorem mentions_are_clean (x m : string) :
  In m (find_mentions x) ->
  PyStr.startswith at_sign m = false
  /\ all_chars not_space m = true
  /\ PyStr.lower m = m
  /\ List.length (find_mentions x)
     <= List.length (PyStr.split (PyStr.lower x)).
Proof.
  unfold find_mentions. intros H.
  apply in_map_iff in H as [t [<- Ht]].
  apply filter_In in Ht as [Ht _]. apply filter_In in Ht as [Ht _].
  split; [apply lstrip_startswith|]. split; [|split].
  - apply lstrip_chars.
    now apply (split_from_tokens (PyStr.lower x) "" t).
  - apply lower_fixed, lstrip_chars.
    apply (split_from_chars lower_case (PyStr.lower x) "" t);
      [reflexivity|apply lower_is_lower_case|exact Ht].
  - rewrite length_map.
    etransitivity; [apply filter_length_le|apply filter_length_le].
Qed.

Lemma mentions_are_clean_example :
  PyStr.startswith at_sign "bob" = false
  /\ all_chars not_space "bob" = true
  /\ PyStr.lower "bob" = "bob"
  /\ List.length (find_mentions "Hi @@Bob")
     <= List.length (PyStr.split (PyStr.lower "Hi @@Bob")).
Proof.
  apply (mentions_are_clean "Hi @@Bob" "bob"). now left.
Defined.

(** Every hashtag that [find_hashtags] returns starts with [#], has at
    least three characters, is free of whitespace and is in lower case. *)
Theorem hashtags_are_clean (x h : string) :
  In h (find_hashtags x) ->
  PyStr.startswith hash_sign h = true
  /\ 3 <= String.length h
  /\ all_chars not_space h = true
  /\ PyStr.lower h = h.
Proof.
  unfold find_hashtags. intros H.
  apply filter_In in H as [H Hlen]. apply filter_In in H as [Ht Hs].
  split; [exact Hs|]. split; [|split].
  - apply Nat.ltb_lt in Hlen. lia.
  - now apply (split_from_tokens (PyStr.lower x) "" h).
  - apply lower_fixed.
    apply (split_from_chars lower_case (PyStr.lower x) "" h);
      [reflexivity|apply lower_is_lower_case|exact Ht].
Qed.

Lemma hashtags_are_clean_example :
  PyStr.startswith hash_sign "#data" = true
  /\ 3 <= String.length "#data"
  /\ all_chars not_space "#data" = true
  /\ PyStr.lower "#data" = "#data".
Proof.
  apply (hashtags_are_clean "#AI #x #Data" "#data"). right. now left.
Defined.

(** Both extractors work token by token and ignore case: the tokens of
    two texts joined by a whitespace character are those of the first
    followed by those of the second, and lowering the text first changes
    nothing. *)
Theorem extractors_compose (a b : string) (ws : ascii) :
  PyStr.isspace ws = true ->
  find_mentions (a ++ String ws b) = find_mentions a ++ find_mentions b
  /\ find_hashtags (a ++ String ws b) = find_hashtags a ++ find_hashtags b
  /\ find_mentions (PyStr.lower a) = find_mentions a
  /\ find_hashtags (PyStr.lower a) = find_hashtags a.
Proof.
  intros Hws.
  assert (Hs : PyStr.split (PyStr.lower (a ++ String ws b))
               = PyStr.split (PyStr.lower a) ++ PyStr.split (PyStr.lower b)).
  { rewrite lower_append. simpl. unfold PyStr.split at 1.
    apply split_from_space. now rewrite isspace_lower_char. }
  unfold find_mentions, find_hashtags. rewrite Hs, lower_idem.
  rewrite !filter_app, map_app. now repeat split.
Qed.

Lemma extractors_compose_example :
  find_mentions ("to @Ann" ++ String " "%char "cc @bob")
  = find_mentions "to @Ann" ++ find_mentions "cc @bob"
  /\ find_hashtags ("to @Ann" ++ String " "%char "cc @bob")
     = find_hashtags "to @Ann" ++ find_hashtags "cc @bob"
  /\ find_mentions (PyStr.lower "to @Ann") = find_mentions "to @Ann"
  /\ find_hashtags (PyStr.lower "to @Ann") = find_hashtags "to @Ann".
Proof.
  apply (extractors_compose "to @Ann" "cc @bob" " "%char). reflexivity.
Defined.

(** ** The delimiter guessed from the file *)

Section Delimiter.

Lemma contains_append (c : ascii) (a b : string) :
  contains c (a ++ b) = contains c a || contains c b.
Proof.
  induction a as [|d a IH]; simpl; [reflexivity|].
  now rewrite IH, orb_assoc.
Qed.

Lemma first_delimiter_cases (ds : list ascii) (header : string) :
  (In (first_delimiter ds header) ds
   /\ contains (first_delimiter ds header) header = true)
  \/ (first_delimiter ds header = line_feed
      /\ forall c, In c ds -> contains c header = false).
Proof.
  induction ds as [|d ds IH]; simpl.
  - right. split; [reflexivity|]. intros c [].
  - destruct (contains d header) eqn:E.
    + left. split; [now left|exact E].
    + destruct IH as [[Hin Hc]|[Hl Hall]].
      * left. split; [now right|exact Hc].
      * right. split; [exact Hl|]. intros c [<-|Hc]; [exact E|now apply Hall].
Qed.

(** The first candidate that occurs in the header wins. *)
Lemma first_delimiter_priority (before after : list ascii) (c : ascii)
      (header : string) :
  (forall b, In b before -> contains b header = false) ->
  contains c header = true ->
  first_delimiter (before ++ c :: after) header = c.
Proof.
  intros Hb Hc. induction before as [|b before IH]; simpl.
  - now rewrite Hc.
  - rewrite (Hb b (or_introl eq_refl)). apply IH.
    intros x Hx. apply Hb. now right.
Qed.

Lemma first_delimiter_ext (ds : list ascii) (h1 h2 : string) :
  (forall c, In c ds -> contains c h1 = contains c h2) ->
  first_delimiter ds h1 = first_delimiter ds h2.
Proof.
  induction ds as [|d ds IH]; intros H; [reflexivity|].
  simpl. rewrite (H d (or_introl eq_refl)).
  rewrite IH; [reflexivity|]. intros c Hc. apply H. now right.
Qed.

Lemma readline_first_line (line rest : string) :
  contains line_feed line = false -> contains carriage_return line = false ->
  readline (line ++ String line_feed rest) = (line ++ String line_feed "")%string
  /\ readline line = line.
Proof.
  induction line as [|c line IH]; intros Hn Hr; [now split|].
  simpl in Hn, Hr. apply orb_false_iff in Hn as [Hn1 Hn2].
  apply orb_false_iff in Hr as [Hr1 Hr2].
  destruct (IH Hn2 Hr2) as [H1 H2]. simpl.
  rewrite Hn1, Hr1. simpl. now rewrite H1, H2.
Qed.

End Delimiter.

(** The delimiter [get_file_delimiter] returns is a bar, a tab, a
    semicolon or a comma that occurs in the first line of the file; it is
    the line feed exactly when none of the four occurs there. *)
Theorem delimiter_occurs_in_first_line (content : string) :
  (In (get_file_delimiter content) delimiters
   /\ contains (get_file_delimiter content) (readline content) = true)
  \/ (get_file_delimiter content = line_feed
      /\ forall c, In c delimiters -> contains c (readline content) = false).
Proof.
  apply first_delimiter_cases.
Qed.

(** The candidates are tried in the order bar, tab, semicolon, comma, and
    only the first line is read: a semicolon in the header wins over its
    commas, and no later line changes the answer. *)
Theorem delimiter_priority_and_first_line (line rest : string) :
  contains line_feed line = false -> contains carriage_return line = false ->
  get_file_delimiter (line ++ String line_feed rest) = get_file_delimiter line
  /\ (contains bar line = true -> get_file_delimiter line = bar)
  /\ (contains bar line = false -> contains tab line = true ->
      get_file_delimiter line = tab)
  /\ (contains bar line = false -> contains tab line = false ->
      contains semicolon line = true -> get_file_delimiter line = semicolon).
Proof.
  intros Hn Hr. destruct (readline_first_line line rest Hn Hr) as [H1 H2].
  unfold get_file_delimiter. rewrite H1, H2. split; [|split; [|split]].
  - apply first_delimiter_ext. intros c Hc. rewrite contains_append.
    cbn [contains]. rewrite orb_false_r.
    assert (Ascii.eqb line_feed c = false) as ->.
    { destruct Hc as [<-|[<-|[<-|[<-|[]]]]]; reflexivity. }
    apply orb_false_r.
  - intros Hb. apply (first_delimiter_priority [] [tab; semicolon; comma]);
      [intros b []|exact Hb].
  - intros Hb Ht. apply (first_delimiter_priority [bar] [semicolon; comma]);
      [|exact Ht]. intros b [<-|[]]. exact Hb.
  - intros Hb Ht Hs. apply (first_delimiter_priority [bar; tab] [comma]);
      [|exact Hs]. intros b [<-|[<-|[]]]; assumption.
Qed.

Lemma delimiter_priority_and_first_line_example :
  get_file_delimiter ("id;name, first" ++ String line_feed "1|2|3")
  = get_file_delimiter "id;name, first"
  /\ (contains bar "id;name, first" = true ->
      get_file_delimiter "id;name, first" = bar)
  /\ (contains bar "id;name, first" = false ->
      contains tab "id;name, first" = true ->
      get_file_delimiter "id;name, first" = tab)
  /\ (contains bar "id;name, first" = false ->
      contains tab "id;name, first" = false ->
      contains semicolon "id;name, first" = true ->
      get_file_delimiter "id;name, first" = semicolon).
Proof.
  apply (delimiter_priority_and_first_line "id;name, first" "1|2|3");
    reflexivity.
Defined.

(** ** The name of the written file *)

Section WrittenName.

Lemma rstrip_all (chars s : string) :
  all_chars (fun c => contains c chars) s = true -> rstrip chars s = "".
Proof.
  induction s as [|c s IH]; [reflexivity|].
  simpl. intros H. apply andb_true_iff in H as [Hc Hs].
  now rewrite (IH Hs), Hc.
Qed.

(** Trailing characters of the set are lost, however many. *)
Lemma rstrip_append_all (chars a b : string) :
  all_chars (fun c => contains c chars) b = true ->
  rstrip chars (a ++ b) = rstrip chars a.
Proof.
  intros Hb. induction a as [|c a IH]; simpl.
  - now apply rstrip_all.
  - now rewrite IH.
Qed.

(** A name whose last character is not in the set is kept whole. *)
Lemma rstrip_keeps (chars a : string) (c : ascii) :
  contains c chars = false ->
  rstrip chars (a ++ String c "") = (a ++ String c "")%string.
Proof.
  intros Hc. induction a as [|d a IH]; simpl.
  - now rewrite Hc.
  - rewrite IH. destruct (a ++ String c "")%string eqn:E; [|reflexivity].
    destruct a; discriminate.
Qed.

Lemma rstrip_shorter (chars s : string) :
  String.length (rstrip chars s) <= String.length s.
Proof.
  induction s as [|c s IH]; [reflexivity|].
  simpl. destruct (rstrip chars s) as [|d r].
  - destruct (contains c chars); simpl; lia.
  - simpl in *. lia.
Qed.


Lemma every_char_contained (s : string) :
  forall t, (forall c, contains c s = true -> contains c t = true) ->
            all_chars (fun c => contains c t) s = true.
Proof.
  induction s as [|d s IH]; intros t H; [reflexivity|].
  simpl. rewrite (H d) by (simpl; now rewrite Ascii.eqb_refl).
  apply IH. intros c Hc. apply H. simpl. rewrite Hc. apply orb_true_r.
Qed.





End WrittenName.

(** The written file name always ends with a dot and the format.  A name
    whose last character is neither a dot nor a letter of the format is
    kept whole; a name that already ends with the extension gets no
    second one; but every trailing character that is a dot or occurs in
    the format is cut, so a name made of such characters only is written
    as the bare extension. *)
Theorem written_name_keeps_or_cuts (fmt : string) :
  (forall a c, contains c (String dot fmt) = false ->
               with_format (a ++ String c "") fmt
               = (a ++ String c "" ++ String dot fmt)%string)
  /\ (forall name, with_format (name ++ String dot fmt) fmt
                   = with_format name fmt)
  /\ (forall a b, all_chars (fun c => contains c (String dot fmt)) b = true ->
                  with_format (a ++ b) fmt = with_format a fmt)
  /\ (forall name,
         all_chars (fun c => contains c (String dot fmt)) name = true ->
         with_format name fmt = String dot fmt).
Proof.
  unfold with_format. split; [|split; [|split]].
  - intros a c Hc. rewrite rstrip_keeps by exact Hc.
    induction a as [|d a IH]; simpl; [reflexivity|]. now rewrite IH.
  - intros name. rewrite rstrip_append_all; [reflexivity|].
    apply every_char_contained. auto.
  - intros a b Hb. now rewrite rstrip_append_all.
  - intros name H. now rewrite rstrip_all.
Qed.

Lemma written_name_keeps_or_cuts_example :
  with_format ("net" ++ String "1"%char "") "graphml" = "net1.graphml"
  /\ with_format ("net" ++ String dot "graphml") "graphml" = "net.graphml"
  /\ with_format ("my" ++ "graph") "graphml" = "my.graphml"
  /\ with_format "graph" "graphml" = ".graphml".
Proof.
  destruct (written_name_keeps_or_cuts "graphml") as [H1 [H2 [H3 H4]]].
  split; [|split; [|split]].
  - apply (H1 "net" "1"%char). reflexivity.
  - rewrite (H2 "net"). reflexivity.
  - rewrite (H3 "my" "graph"); reflexivity.
  - apply (H4 "graph"). reflexivity.
Defined.

Section InputName.










End InputName.



(** ** Columns that are not in the table *)

Section MissingColumns.

Lemma get_loc_some_in (c : string) (cols : list string) (j : nat) :
  get_loc c cols = Some j -> In c cols.
Proof.
  revert j. induction cols as [|h cols IH]; intros j H; [discriminate|].
  simpl in H. destruct (String.eqb h c) eqn:E.
  - apply String.eqb_eq in E. now left.
  - destruct (get_loc c cols) as [k|]; [|discriminate]. right. now apply (IH k).
Qed.

Lemma loc_ok_in (df : DataFrame) (c : string) (j : nat) :
  loc df c = Ok j -> In c (columns df).
Proof.
  unfold loc. destruct (get_loc c (columns df)) as [k|] eqn:E;
    [|discriminate].
  intros _. now apply (get_loc_some_in c (columns df) k).
Qed.

(** Lines 79-80 pass only on a table that has the source column and the
    target columns. *)
Lemma normalize_columns (L : Libs) (cfg : Config) (df : DataFrame)
      (n : nat * list nat * list row) :
  normalize L cfg df = Ok n ->
  forall c, In c (source cfg :: target cfg) -> In c (columns df).
Proof.
  unfold normalize. intros H.
  apply bind_ok in H as [s [Hs H]]. apply bind_ok in H as [ts [Hts _]].
  apply mapM_ok_inv in Hts. intros c [<-|Hc].
  - now apply (loc_ok_in df _ s).
  - clear Hs. induction Hts as [|t j l js Ht _ IH]; [destruct Hc|].
    destruct Hc as [<-|Hc]; [now apply (loc_ok_in df _ j)|now apply IH].
Qed.

End MissingColumns.

(** A column the configuration names and the file lacks is refused by
    the reader, before a row is looked at: with no node index the engine
    raises [ValueError] when the header lacks the source column, a target
    column or an attribute column, and it raises [ValueError] as well,
    from [pd.concat], when every column is there and the list of target
    columns is empty.  So a graph is returned only when there is no node
    index, at least one target column, and the header holds every column
    the configuration names. *)
Theorem missing_column_raises (L : Libs) (cfg : Config) (file : DataFrame) :
  (node_index cfg = None \/ node_index cfg = Some "" ->
   forall c,
     In c (source cfg :: target cfg ++ node_attrs cfg ++ edge_attrs cfg) ->
     ~ In c (columns file) ->
     convert_to_graph L cfg file = Err ValueError)
  /\ (node_index cfg = None \/ node_index cfg = Some "" ->
      (forall c,
          In c (source cfg :: target cfg ++ node_attrs cfg ++ edge_attrs cfg) ->
          In c (columns file)) ->
      target cfg = [] ->
      convert_to_graph L cfg file = Err ValueError)
  /\ (forall G,
         convert_to_graph L cfg file = Ok G ->
         (node_index cfg = None \/ node_index cfg = Some "")
         /\ target cfg <> []
         /\ forall c,
             In c (source cfg :: target cfg ++ node_attrs cfg ++ edge_attrs cfg) ->
             In c (columns file)).
Proof.
  split; [|split].
  - intros Hi c Hc Hm. rewrite convert_to_graph_engine.
    rewrite (usecols_no_index cfg Hi). cbn [bind].
    now rewrite (read_csv_missing _ file c Hc Hm).
  - intros Hi Hc Ht. rewrite convert_to_graph_engine.
    rewrite (usecols_no_index cfg Hi). cbn [bind].
    destruct (read_csv_total _ file Hc) as [df ->]. cbn [bind].
    unfold engine, engine_graph, normalize.
    destruct (loc_in file (source cfg)) as [s ->]; [apply Hc; now left|].
    rewrite Ht. reflexivity.
  - intros G H. apply convert_to_graph_read in H as [H [cols [df [Hu Hr]]]].
    assert (Hi : node_index cfg = None \/ node_index cfg = Some "").
    { unfold usecols in Hu. destruct (node_index cfg) as [[|c r]|];
        [now right|discriminate|now left]. }
    split; [exact Hi|]. split.
    + intros Ht. unfold engine in H. apply bind_ok in H as [rg [H _]].
      unfold engine_graph, normalize in H. rewrite Ht in H.
      destruct (loc file (source cfg)); discriminate.
    + rewrite (usecols_no_index cfg Hi) in Hu. injection Hu as <-.
      destruct (read_csv_ok _ file df Hr) as [Hall _].
      rewrite forallb_forall in Hall. intros c Hc.
      specialize (Hall c Hc). apply existsb_exists in Hall as [h [Hh E]].
      apply String.eqb_eq in E. now subst h.
Qed.

(** The table of the scenario has no column [u]: the reader refuses it. *)
Lemma missing_column_raises_example :
  convert_to_graph nx_recent (args (bare_command_line "s" "t,u")) scenario
  = Err ValueError.
Proof.
  apply (proj1 (missing_column_raises nx_recent
                  (args (bare_command_line "s" "t,u")) scenario)
               (or_introl eq_refl) "u").
  - simpl. tauto.
  - simpl. intros [H|[H|[]]]; discriminate.
Defined.

(** ** The shape of the graph *)

Ltac case_existsb E :=
  match goal with
  | |- context [existsb ?f ?l] => destruct (existsb f l) eqn:E
  end.

Ltac case_forallb F :=
  match goal with
  | H : context [forallb ?f ?l] |- _ => destruct (forallb f l) eqn:F
  end.

Section Shape.

Lemma update_edge_keys_eq (d : bool) (p : edge_key) (w : option nat)
      (es : list edge_row) :
  map fst (update_edge d p w es)
  = if existsb (fun e => same_edge d (fst e) p) es
    then map fst es else map fst es ++ [p].
Proof.
  induction es as [|[q old] es IH]; [reflexivity|].
  simpl. destruct (same_edge d q p); simpl; [reflexivity|].
  rewrite IH. case_existsb E; reflexivity.
Qed.

Lemma distinct_edges_snoc (d : bool) (ks : list edge_key) (p : edge_key) :
  distinct_edges d ks ->
  (forall q, In q ks -> same_edge d q p = false) ->
  distinct_edges d (ks ++ [p]).
Proof.
  induction ks as [|q ks IH]; intros Hd Hp; simpl.
  - split; [intros q' []|exact I].
  - destruct Hd as [Hq Hd]. split.
    + intros q' Hq'. apply in_app_or in Hq' as [Hq'|[<-|[]]].
      * now apply Hq.
      * apply Hp. now left.
    + apply IH; [exact Hd|]. intros x Hx. apply Hp. now right.
Qed.

Lemma distinct_edges_NoDup (d : bool) (ks : list edge_key) :
  distinct_edges d ks -> NoDup ks.
Proof.
  induction ks as [|q ks IH]; intros H; [constructor|].
  destruct H as [Hq Hd]. constructor; [|now apply IH].
  intros Hin. specialize (Hq q Hin). rewrite same_edge_refl in Hq.
  discriminate.
Qed.

Lemma add_edge_distinct (e : edge_row) (G : Graph) :
  distinct_edges (is_directed G) (map fst (edges G)) ->
  distinct_edges (is_directed (add_edge e G)) (map fst (edges (add_edge e G))).
Proof.
  intros H. rewrite add_edge_directed, add_edge_edges, update_edge_keys_eq.
  case_existsb E; [exact H|].
  apply distinct_edges_snoc; [exact H|].
  intros q Hq. apply in_map_iff in Hq as [x [<- Hx]].
  destruct (same_edge (is_directed G) (fst x) (fst e)) eqn:S; [|reflexivity].
  assert (existsb (fun e0 => same_edge (is_directed G) (fst e0) (fst e))
                  (edges G) = true)
    by (apply existsb_exists; eauto).
  congruence.
Qed.

Lemma build_distinct (W : list edge_row) :
  forall G, distinct_edges (is_directed G) (map fst (edges G)) ->
            distinct_edges (is_directed (build W G))
                           (map fst (edges (build W G))).
Proof.
  induction W as [|e W IH]; intros G H; [exact H|].
  apply IH, add_edge_distinct, H.
Qed.

Lemma add_node_NoDup (n : cell) (G : Graph) :
  NoDup (node_ids G) -> NoDup (node_ids (add_node n G)).
Proof.
  intros H. unfold add_node. destruct (has_node G n) eqn:E; [exact H|].
  unfold node_ids. simpl. rewrite map_app. simpl.
  apply NoDup_app; [exact H|repeat constructor; intros []|].
  intros x Hx [Hn|[]]. subst x. unfold has_node in E.
  assert (existsb (cell_eqb n) (node_ids G) = true).
  { apply existsb_exists. exists n. split; [exact Hx|apply cell_eqb_refl]. }
  congruence.
Qed.

Lemma build_NoDup (W : list edge_row) :
  forall G, NoDup (node_ids G) -> NoDup (node_ids (build W G)).
Proof.
  induction W as [|e W IH]; intros G H; [exact H|].
  apply IH. unfold add_edge.
  change (node_ids (mkGraph ?a ?b ?c)) with (map fst b).
  fold (node_ids (add_node (snd (fst e)) (add_node (fst (fst e)) G))).
  now apply add_node_NoDup, add_node_NoDup.
Qed.

(** Every stored weight is the weight of some row, or an old one. *)
Lemma build_weights_all (P : option nat -> Prop) (W : list edge_row) :
  (forall r, In r W -> P (snd r)) ->
  forall G, (forall e, In e (edges G) -> P (snd e)) ->
            forall e, In e (edges (build W G)) -> P (snd e).
Proof.
  intros HW. induction W as [|r W IH]; intros G HG; [exact HG|].
  apply IH; [intros x Hx; apply HW; now right|].
  intros e He. rewrite add_edge_edges in He.
  assert (Hr : P (snd r)) by (apply HW; now left).
  clear IH HW. induction (edges G) as [|[q old] es IHes].
  - destruct He as [<-|[]]. exact Hr.
  - simpl in He. destruct (same_edge (is_directed G) q (fst r)).
    + destruct He as [<-|He].
      * simpl. destruct (snd r) eqn:E; [exact Hr|].
        apply (HG (q, old)). now left.
      * apply HG. now right.
    + destruct He as [<-|He]; [apply (HG (q, old)); now left|].
      apply IHes; [|exact He]. intros x Hx. apply HG. now right.
Qed.

Lemma from_pandas_edgelist_inv (L : Libs) (d w : bool) (ea : list string)
      (W : list edge_row) (G : Graph) :
  from_pandas_edgelist L d w ea W = Ok G ->
  unhashable W = false
  /\ (w = false -> nx_legacy L = true /\ ea = []).
Proof.
  unfold from_pandas_edgelist. intros H.
  destruct ((if w then ["weight"] else []) ++ ea) as [|x l] eqn:E.
  - destruct (nx_legacy L); [|discriminate].
    destruct (unhashable W); [discriminate|]. split; [reflexivity|].
    intros _. split; [reflexivity|]. now destruct w, ea.
  - case_forallb F; [|discriminate].
    destruct (unhashable W); [discriminate|]. split; [reflexivity|].
    intros ->. simpl in E. subst ea. simpl in F. discriminate.
Qed.

Lemma convert_to_graph_edgelist (L : Libs) (cfg : Config) (df : DataFrame)
      (G : Graph) :
  convert_to_graph L cfg df = Ok G ->
  exists E W G0,
    surviving_pairs L cfg df = Ok E
    /\ weigh cfg E = Ok W
    /\ from_pandas_edgelist L (directed cfg) (weighted cfg) (edge_attrs cfg) W
       = Ok G0
    /\ node_ids G = node_ids G0 /\ edges G = edges G0.
Proof.
  intros H. apply convert_to_graph_read in H as [H _].
  unfold engine in H.
  apply bind_ok in H as [[rows G0] [Hg H]].
  apply attribute_loop_frame in H as [G1 [H1 [Hn [He _]]]].
  injection H1 as <-. simpl in Hn, He. unfold engine_graph in Hg.
  apply bind_ok in Hg as [n [Hn0 Hg]].
  apply bind_ok in Hg as [E [HE Hg]]. apply bind_ok in Hg as [W [HW Hg]].
  apply bind_ok in Hg as [G2 [HG Hg]]. injection Hg as _ <-.
  exists E, W, G2. repeat split; try assumption.
  unfold surviving_pairs. now rewrite Hn0.
Qed.

Lemma sum_indicator (ks : list edge_key) (p : edge_key) :
  list_sum (map (fun q => if key_eq_dec p q then 1 else 0) ks)
  = count_occ key_eq_dec ks p.
Proof.
  induction ks as [|q ks IH]; [reflexivity|].
  simpl. rewrite IH.
  destruct (key_eq_dec p q) as [H|H], (key_eq_dec q p) as [H'|H'];
    try reflexivity; congruence.
Qed.

Lemma list_sum_map_add {A} (f g : A -> nat) (l : list A) :
  list_sum (map (fun a => f a + g a) l)
  = list_sum (map f l) + list_sum (map g l).
Proof.
  induction l as [|a l IH]; [reflexivity|]. simpl. rewrite IH. lia.
Qed.

(** Counting the rows pair by pair counts every row once. *)
Lemma sum_occurrences (ks : list edge_key) :
  NoDup ks -> forall E, incl E ks ->
  list_sum (map (occurrences E) ks) = List.length E.
Proof.
  intros Hk. induction E as [|p E IH]; intros Hincl.
  - clear Hk Hincl. induction ks as [|q ks IHk]; [reflexivity|exact IHk].
  - assert (Hp : In p ks) by (apply Hincl; now left).
    assert (HE : incl E ks) by (intros x Hx; apply Hincl; now right).
    rewrite (map_ext (occurrences (p :: E))
               (fun q => (if key_eq_dec p q then 1 else 0) + occurrences E q)).
    + rewrite list_sum_map_add, sum_indicator, (IH HE).
      rewrite (proj1 (NoDup_count_occ' key_eq_dec ks) Hk p Hp). reflexivity.
    + intros q. unfold occurrences. simpl. now destruct (key_eq_dec p q).
Qed.

End Shape.

(** ** The weight of an edge *)

Section LastRow.

Variable d : bool.

Lemma find_update_edge (q p : edge_key) (k : nat) (es : list edge_row) :
  distinct_edges d (map fst es) ->
  option_map snd (find (fun e => same_edge d (fst e) p)
                       (update_edge d q (Some k) es))
  = if same_edge d q p then Some (Some k)
    else option_map snd (find (fun e => same_edge d (fst e) p) es).
Proof.
  induction es as [|[x old] es IH]; intros Hd.
  - cbn [update_edge find fst]. now destruct (same_edge d q p).
  - destruct Hd as [Hx Hd]. cbn [update_edge].
    destruct (same_edge d x q) eqn:Exq; cbn [find fst].
    + destruct (same_edge d q p) eqn:Eqp.
      * now rewrite (same_edge_trans d x q p Exq Eqp).
      * destruct (same_edge d x p) eqn:Exp; [|reflexivity].
        apply same_edge_sym in Exq.
        rewrite (same_edge_trans d q x p Exq Exp) in Eqp. discriminate.
    + destruct (same_edge d x p) eqn:Exp.
      * destruct (same_edge d q p) eqn:Eqp; [|reflexivity].
        apply same_edge_sym in Eqp.
        rewrite (same_edge_trans d x p q Exp Eqp) in Exq. discriminate.
      * now apply IH.
Qed.

(** A weighted row sets the weight of its edge and of no other. *)
Lemma edge_data_add_edge (q p : edge_key) (k : nat) (G : Graph) :
  is_directed G = d -> distinct_edges d (map fst (edges G)) ->
  edge_data (add_edge (q, Some k) G) p
  = if same_edge d q p then Some (Some k) else edge_data G p.
Proof.
  intros Hd Hdist. unfold edge_data.
  rewrite add_edge_directed, add_edge_edges, Hd. cbn [fst snd].
  now apply find_update_edge.
Qed.

(** After all the rows, the weight of an edge is the weight of the last
    row that names it. *)
Lemma build_last_row (f : edge_key -> nat) (p : edge_key)
      (E : list edge_key) :
  forall G,
    is_directed G = d -> distinct_edges d (map fst (edges G)) ->
    edge_data (build (map (fun q => (q, Some (f q))) E) G) p
    = match last_row d p E with
      | Some q => Some (Some (f q))
      | None => edge_data G p
      end.
Proof.
  induction E as [|q E IH]; intros G Hd Hdist; [reflexivity|].
  cbn [map last_row]. change (build (?e :: ?W) G) with (build W (add_edge e G)).
  rewrite IH.
  - destruct (last_row d p E); [reflexivity|].
    rewrite (edge_data_add_edge q p (f q) G Hd Hdist).
    now destruct (same_edge d q p).
  - now rewrite add_edge_directed.
  - pose proof (add_edge_distinct (q, Some (f q)) G) as H.
    rewrite add_edge_directed, Hd in H. apply H. exact Hdist.
Qed.

Lemma last_row_in (p q : edge_key) (E : list edge_key) :
  last_row d p E = Some q -> In q E /\ same_edge d q p = true.
Proof.
  induction E as [|x E IH]; [discriminate|]. cbn [last_row].
  destruct (last_row d p E) as [y|].
  - intros H. injection H as <-. destruct (IH eq_refl). split; [now right|auto].
  - destruct (same_edge d x p) eqn:Ex; [|discriminate].
    intros H. injection H as <-. split; [now left|exact Ex].
Qed.

Lemma last_row_some (p : edge_key) (E : list edge_key) :
  In p E -> exists q, last_row d p E = Some q.
Proof.
  induction E as [|x E IH]; intros H; [destruct H|]. cbn [last_row].
  destruct (last_row d p E) as [y|] eqn:Ey; [eauto|].
  destruct H as [->|H]; [|destruct (IH H); discriminate].
  rewrite same_edge_refl. eauto.
Qed.

End LastRow.

(** C1, as the code has it: with weighting on, every surviving candidate
    pair that occurs in [k] rows is given the weight [k] in the weight
    column, and [k] is at least one; pairs of identifiers are always
    weighed.  In the directed graph the edge of the pair carries [k].  In
    the undirected graph the pair and the reversed pair are one edge, and
    that edge carries the count of the last surviving row that names it:
    [k] when the pair is never met reversed, and otherwise [k] or the
    count of the reversed pair, whichever orientation comes last. *)
Theorem weight_is_number_of_rows :
  (forall E : list (string * string),
      add_weights (map ids E)
      = Ok (map (fun p => (p, occurrences (map ids E) p)) (map ids E)))
  /\ (forall (L : Libs) (cfg : Config) (df : DataFrame) (G : Graph),
         weighted cfg = true ->
         convert_to_graph L cfg df = Ok G ->
         exists E,
           surviving_pairs L cfg df = Ok E
           /\ weigh cfg E = Ok (map (fun p => (p, Some (occurrences E p))) E)
           /\ (forall p, In p E -> 1 <= occurrences E p)
           /\ (directed cfg = true ->
               forall p, In p E ->
                         edge_data G p = Some (Some (occurrences E p)))
           /\ (directed cfg = false ->
               forall p, In p E ->
                 exists q,
                   last_row false p E = Some q
                   /\ (q = p \/ q = flip p)
                   /\ edge_data G p = Some (Some (occurrences E q)))
           /\ (directed cfg = false ->
               forall p, In p E -> ~ In (flip p) E ->
                         edge_data G p = Some (Some (occurrences E p)))).
Proof.
  split.
  - intros E. apply add_weights_total.
    + apply forallb_forall. intros p Hp.
      apply in_map_iff in Hp as [x [<- _]]. reflexivity.
    + apply not_true_is_false. intros H.
      apply existsb_exists in H as [p [Hp H]].
      apply in_map_iff in Hp as [x [<- _]]. discriminate.
  - intros L cfg df G Hw H.
    apply convert_to_graph_ok in H
      as [E [W [rows [G0 [HE [HW [_ [HG0 [_ [He Hd]]]]]]]]]].
    exists E. split; [exact HE|].
    destruct (weigh_ok _ _ _ HW) as [_ HWw].
    destruct (HWw Hw) as [HWeq _].
    split; [now rewrite <- HWeq|].
    split; [intros p Hp; now apply occurrences_pos|].
    assert (HD : forall p, edge_data G p = edge_data G0 p)
      by (intros p; unfold edge_data;
          rewrite He, Hd, HG0, build_directed; reflexivity).
    assert (Hlast : forall p,
               In p E ->
               exists q, last_row (directed cfg) p E = Some q
                         /\ same_edge (directed cfg) q p = true
                         /\ In q E
                         /\ edge_data G p = Some (Some (occurrences E q))).
    { intros p Hp.
      destruct (last_row_some (directed cfg) p E Hp) as [q Hq].
      destruct (last_row_in (directed cfg) p q E Hq) as [Hin Hs].
      exists q. repeat split; try assumption.
      rewrite HD, HG0, HWeq.
      rewrite (build_last_row (directed cfg) (occurrences E) p E
                 (empty_graph (directed cfg)) eq_refl I).
      now rewrite Hq. }
    split; [|split].
    + intros Hdir p Hp. destruct (Hlast p Hp) as [q [_ [Hs [_ Hq]]]].
      rewrite Hdir, same_edge_directed in Hs. apply key_eqb_eq in Hs.
      now subst q.
    + intros Hdir p Hp. destruct (Hlast p Hp) as [q [Hq [Hs [_ Hdata]]]].
      rewrite Hdir in Hq, Hs. exists q. split; [exact Hq|].
      split; [|exact Hdata].
      apply same_edge_cases in Hs as [Hs|[_ Hs]]; [now left|now right].
    + intros Hdir p Hp Hf. destruct (Hlast p Hp) as [q [_ [Hs [Hin Hdata]]]].
      apply same_edge_cases in Hs as [Hs|[_ Hs]]; subst q;
        [exact Hdata|now elim Hf].
Qed.

(** The scenario of the specification: [(A, B)] twice gives weight two. *)
Lemma weight_is_number_of_rows_scenario :
  exists E,
    surviving_pairs nx_recent (args (bare_command_line "s" "t")) scenario = Ok E
    /\ weigh (args (bare_command_line "s" "t")) E
       = Ok (map (fun p => (p, Some (occurrences E p))) E)
    /\ (forall p, In p E -> 1 <= occurrences E p)
    /\ (directed (args (bare_command_line "s" "t")) = true ->
        forall p, In p E ->
                  edge_data (mkGraph true [(Str "A", []); (Str "B", [])]
                                     [((Str "A", Str "B"), Some 2)]) p
                  = Some (Some (occurrences E p)))
    /\ (directed (args (bare_command_line "s" "t")) = false ->
        forall p, In p E ->
          exists q,
            last_row false p E = Some q
            /\ (q = p \/ q = flip p)
            /\ edge_data (mkGraph true [(Str "A", []); (Str "B", [])]
                                  [((Str "A", Str "B"), Some 2)]) p
               = Some (Some (occurrences E q)))
    /\ (directed (args (bare_command_line "s" "t")) = false ->
        forall p, In p E -> ~ In (flip p) E ->
                  edge_data (mkGraph true [(Str "A", []); (Str "B", [])]
                                     [((Str "A", Str "B"), Some 2)]) p
                  = Some (Some (occurrences E p))).
Proof.
  apply (proj2 weight_is_number_of_rows nx_recent
               (args (bare_command_line "s" "t")) scenario);
    reflexivity.
Defined.

(** C1, as the specification words it, fails in undirected mode: of the
    rows [(a, b)], [(a, b)], [(b, a)] the pair [(a, b)] occurs twice, and
    the edge of the pair carries the weight 1, which the last row set. *)
Lemma undirected_edge_carries_the_last_count :
  weighted undirected_weighted = true
  /\ surviving_pairs nx_recent undirected_weighted both_ways
     = Ok [(Str "a", Str "b"); (Str "a", Str "b"); (Str "b", Str "a")]
  /\ occurrences [(Str "a", Str "b"); (Str "a", Str "b"); (Str "b", Str "a")]
                 (Str "a", Str "b") = 2
  /\ exists G,
      convert_to_graph nx_recent undirected_weighted both_ways = Ok G
      /\ edge_data G (Str "a", Str "b") = Some (Some 1).
Proof.
  split; [reflexivity|]. split; [reflexivity|]. split; [reflexivity|].
  eexists. split; reflexivity.
Qed.

(** The edges of the graph and the surviving pairs: no two edges are
    the same edge, every edge is a pair, and every pair is an edge under
    one of its orientations. *)
Lemma edges_and_pairs (L : Libs) (cfg : Config) (df : DataFrame)
      (G : Graph) :
  convert_to_graph L cfg df = Ok G ->
  exists E,
    surviving_pairs L cfg df = Ok E
    /\ distinct_edges (directed cfg) (map fst (edges G))
    /\ (forall q, In q (map fst (edges G)) -> In q E)
    /\ (forall p, In p E ->
                  exists q, In q (map fst (edges G))
                            /\ same_edge (directed cfg) q p = true).
Proof.
  intros H.
  apply convert_to_graph_ok in H
    as [E [W [rows [G0 [HE [HW [_ [HG0 [Hn [He Hd]]]]]]]]]].
  destruct (weigh_ok _ _ _ HW) as [HWE _].
  exists E. split; [exact HE|]. split; [|split].
  - rewrite He, HG0.
    pose proof (build_distinct W (empty_graph (directed cfg)) I) as Hb.
    now rewrite build_directed in Hb.
  - intros q Hq. rewrite He, HG0 in Hq.
    apply build_keys in Hq as [[]|Hq]. now rewrite <- HWE.
  - intros p Hp. rewrite <- HWE in Hp. apply in_map_iff in Hp as [r [<- Hr]].
    destruct (build_has W (empty_graph (directed cfg)) r Hr) as [q [Hq Hs]].
    exists q. rewrite He, HG0. now split.
Qed.

(** The graph is a simple graph on the surviving pairs: its nodes are
    pairwise different, no two of its edges join the same nodes (in the
    same direction, when directed), every edge is a surviving pair, every
    surviving pair is an edge under one of its orientations with both ends
    among the nodes, and there are no more edges than surviving rows. *)
Theorem graph_is_simple (L : Libs) (cfg : Config) (df : DataFrame)
        (G : Graph) :
  convert_to_graph L cfg df = Ok G ->
  exists E,
    surviving_pairs L cfg df = Ok E
    /\ NoDup (node_ids G)
    /\ distinct_edges (directed cfg) (map fst (edges G))
    /\ (forall q, In q (map fst (edges G)) -> In q E)
    /\ (forall p, In p E ->
                  (exists q, In q (map fst (edges G))
                             /\ same_edge (directed cfg) q p = true)
                  /\ In (fst p) (node_ids G) /\ In (snd p) (node_ids G))
    /\ List.length (edges G) <= List.length E
    /\ (directed cfg = true ->
        forall p, In p (map fst (edges G)) <-> In p E).
Proof.
  intros H.
  destruct (edges_and_pairs L cfg df G H) as [E' [HE' [Hdist [Hkeys Hhas]]]].
  apply convert_to_graph_ok in H
    as [E [W [rows [G0 [HE [HW [_ [HG0 [Hn [He Hd]]]]]]]]]].
  rewrite HE in HE'. injection HE' as <-.
  exists E. split; [exact HE|].
  split; [|split; [exact Hdist|split; [exact Hkeys|split; [|split]]]].
  - rewrite Hn, HG0. apply build_NoDup. constructor.
  - intros p Hp. split; [now apply Hhas|].
    destruct (Hhas p Hp) as [q [Hq Hs]].
    apply in_map_iff in Hq as [e [<- Hin]].
    assert (Hc : forall n, endpoint G n -> In n (node_ids G)).
    { intros n Hend. rewrite Hn. rewrite HG0.
      apply (build_closed W (empty_graph (directed cfg))
                          (empty_closed (directed cfg))).
      destruct Hend as [x [Hx Hxn]]. exists x. rewrite <- HG0, <- He. eauto. }
    apply same_edge_cases in Hs as [Hs|[_ Hs]].
    + split; apply Hc; exists e; rewrite <- Hs; auto.
    + split; apply Hc; exists e; rewrite Hs; simpl; auto.
  - apply Nat.le_trans with (List.length (map fst (edges G)));
      [rewrite length_map; apply Nat.le_refl|].
    apply NoDup_incl_length.
    + now apply (distinct_edges_NoDup (directed cfg)).
    + exact Hkeys.
  - intros Hdir p. split; [apply Hkeys|]. intros Hp.
    destruct (Hhas p Hp) as [q [Hq Hs]]. rewrite Hdir in Hs.
    rewrite same_edge_directed in Hs. apply key_eqb_eq in Hs. now subst q.
Qed.

Lemma graph_is_simple_example :
  exists E,
    surviving_pairs nx_recent undirected_weighted both_ways = Ok E
    /\ NoDup [Str "a"; Str "b"]
    /\ distinct_edges false [(Str "a", Str "b")]
    /\ (forall q, In q [(Str "a", Str "b")] -> In q E)
    /\ (forall p, In p E ->
                  (exists q, In q [(Str "a", Str "b")]
                             /\ same_edge false q p = true)
                  /\ In (fst p) [Str "a"; Str "b"]
                  /\ In (snd p) [Str "a"; Str "b"])
    /\ 1 <= List.length E
    /\ (false = true -> forall p, In p [(Str "a", Str "b")] <-> In p E).
Proof.
  apply (graph_is_simple nx_recent undirected_weighted both_ways
           (mkGraph false [(Str "a", []); (Str "b", [])]
                    [((Str "a", Str "b"), Some 1)])).
  reflexivity.
Defined.

(** Without weighting the engine returns a graph only with the older
    [from_pandas_edgelist], which accepts an empty attribute list; with
    the newer one [--unweighted] always raises.  The edges of the graph
    it then returns carry no weight. *)
Theorem unweighted_needs_old_networkx (L : Libs) (cfg : Config)
        (df : DataFrame) (G : Graph) :
  weighted cfg = false ->
  convert_to_graph L cfg df = Ok G ->
  nx_legacy L = true /\ edge_attrs cfg = []
  /\ forall e, In e (edges G) -> snd e = None.
Proof.
  intros Hw H.
  apply convert_to_graph_edgelist in H as [E [W [G0 [_ [HW [HG [_ He]]]]]]].
  destruct (from_pandas_edgelist_inv _ _ _ _ _ _ HG) as [_ Hl].
  destruct (Hl Hw) as [Hleg Hea]. split; [exact Hleg|]. split; [exact Hea|].
  apply from_pandas_edgelist_ok in HG. rewrite He, HG.
  apply (build_weights_all (fun w : option nat => w = None) W);
    [|intros e []].
  unfold weigh in HW. rewrite Hw in HW. injection HW as <-.
  intros r Hr. apply in_map_iff in Hr as [p [<- _]]. reflexivity.
Qed.

Lemma unweighted_needs_old_networkx_example :
  nx_legacy nx_old = true
  /\ edge_attrs (mentions_on_source false) = []
  /\ forall e : edge_row, In e [((NaN, Str "x"), None)] -> snd e = None.
Proof.
  apply (unweighted_needs_old_networkx nx_old (mentions_on_source false)
           missing_source
           (mkGraph true [(NaN, []); (Str "x", [])] [((NaN, Str "x"), None)]));
    reflexivity.
Defined.

(** With weighting every edge of the graph carries a weight between one
    and the number of surviving rows; in the directed graph the edge of a
    pair carries its number of rows, so the weights add up to the number
    of surviving rows: each row is counted once. *)
Theorem weights_count_every_row_once (L : Libs) (cfg : Config)
        (df : DataFrame) (G : Graph) :
  weighted cfg = true ->
  convert_to_graph L cfg df = Ok G ->
  exists E,
    surviving_pairs L cfg df = Ok E
    /\ (forall e, In e (edges G) ->
                  exists k, snd e = Some k /\ 1 <= k <= List.length E)
    /\ (directed cfg = true ->
        (forall e, In e (edges G) -> snd e = Some (occurrences E (fst e)))
        /\ total_weight G = List.length E).
Proof.
  intros Hw H. destruct (edges_and_pairs L cfg df G H)
    as [E' [HE' [Hdist [Hkeys Hhas]]]].
  apply convert_to_graph_ok in H
    as [E [W [rows [G0 [HE [HW [_ [HG0 [_ [He _]]]]]]]]]].
  rewrite HE in HE'. injection HE' as <-.
  destruct (weigh_ok _ _ _ HW) as [_ HWw]. destruct (HWw Hw) as [HWeq _].
  exists E. split; [exact HE|]. split.
  - rewrite He, HG0.
    apply (build_weights_all
             (fun w => exists k, w = Some k /\ 1 <= k <= List.length E) W);
      [|intros e []].
    intros r Hr. rewrite HWeq in Hr. apply in_map_iff in Hr as [p [<- Hp]].
    exists (occurrences E p). split; [reflexivity|]. split.
    + now apply occurrences_pos.
    + apply count_occ_bound.
  - intros Hdir.
    assert (Hexact : forall e, In e (edges G) ->
                               snd e = Some (occurrences E (fst e))).
    { intros e Hin. rewrite He, HG0 in Hin.
      apply (build_weights_in true (fst e)
               (fun w => w = Some (occurrences E (fst e))) W
               (empty_graph (directed cfg))) in Hin.
      - apply Hin, same_edge_refl.
      - simpl. exact Hdir.
      - intros r Hr Hs. rewrite HWeq in Hr.
        apply in_map_iff in Hr as [q [<- _]]. simpl in Hs |- *.
        rewrite same_edge_directed in Hs. apply key_eqb_eq in Hs. now subst q.
      - intros x []. }
    split; [exact Hexact|]. unfold total_weight.
    rewrite (map_ext_in _ (fun e => occurrences E (fst e))).
    + rewrite <- (map_map fst (occurrences E)). apply sum_occurrences.
      * now apply (distinct_edges_NoDup (directed cfg)).
      * intros p Hp. destruct (Hhas p Hp) as [q [Hq Hs]].
        rewrite Hdir, same_edge_directed in Hs.
        apply key_eqb_eq in Hs. now subst q.
    + intros e Hin. now rewrite (Hexact e Hin).
Qed.

Lemma weights_count_every_row_once_example :
  exists E,
    surviving_pairs nx_recent (args (bare_command_line "s" "t")) scenario = Ok E
    /\ (forall e, In e [((Str "A", Str "B"), Some 2)] ->
                  exists k, snd e = Some k /\ 1 <= k <= List.length E)
    /\ (true = true ->
        (forall e, In e [((Str "A", Str "B"), Some 2)] ->
                   snd e = Some (occurrences E (fst e)))
        /\ 2 = List.length E).
Proof.
  apply (weights_count_every_row_once nx_recent
           (args (bare_command_line "s" "t")) scenario
           (mkGraph true [(Str "A", []); (Str "B", [])]
                    [((Str "A", Str "B"), Some 2)]));
    reflexivity.
Defined.

(** ** Where node attributes come from *)

Section AttributeProvenance.

Lemma dict_get_set (nm name : string) (v v' : cell) (d : attrs) :
  dict_get String.eqb nm (dict_set String.eqb name v' d) = Some v ->
  dict_get String.eqb nm d = Some v \/ (nm = name /\ v = v').
Proof.
  unfold dict_get. induction d as [|[k0 v0] d IH]; simpl.
  - destruct (String.eqb name nm) eqn:E; [|discriminate].
    apply String.eqb_eq in E. simpl. intros H. injection H as <-. now right.
  - destruct (String.eqb k0 name) eqn:E1; simpl.
    + apply String.eqb_eq in E1. subst k0.
      destruct (String.eqb name nm) eqn:E2; [|now left].
      apply String.eqb_eq in E2. simpl. intros H. injection H as <-. now right.
    + destruct (String.eqb k0 nm); [now left|exact IH].
Qed.

Lemma node_attr_map (f : cell * attrs -> cell * attrs) (d : bool)
      (es : list edge_row) (n : cell) (nm : string)
      (ns : list (cell * attrs)) :
  (forall nd, fst (f nd) = fst nd) ->
  node_attr (mkGraph d (map f ns) es) n nm
  = match find (fun nd => cell_eqb (fst nd) n) ns with
    | Some nd => dict_get String.eqb nm (snd (f nd))
    | None => None
    end.
Proof.
  intros Hf. unfold node_attr. cbn [nodes].
  induction ns as [|nd ns IH]; [reflexivity|].
  cbn [map find]. rewrite Hf. destruct (cell_eqb (fst nd) n); [reflexivity|].
  exact IH.
Qed.

Lemma node_attr_plain (d : bool) (es : list edge_row) (n : cell) (nm : string)
      (ns : list (cell * attrs)) :
  node_attr (mkGraph d ns es) n nm
  = match find (fun nd => cell_eqb (fst nd) n) ns with
    | Some nd => dict_get String.eqb nm (snd nd)
    | None => None
    end.
Proof. reflexivity. Qed.

Lemma node_attr_set_node_attr (d : bool) (es : list edge_row)
      (k : cell) (name : string) (v' : cell) (n : cell) (nm : string)
      (v : cell) (ns : list (cell * attrs)) :
  node_attr (mkGraph d (set_node_attr k name v' ns) es) n nm = Some v ->
  node_attr (mkGraph d ns es) n nm = Some v
  \/ (n = k /\ nm = name /\ v = v').
Proof.
  pose (f := fun nd : cell * attrs =>
               if cell_eqb (fst nd) k
               then ((fst nd, dict_set String.eqb name v' (snd nd))
                     : cell * attrs)
               else nd).
  assert (Hf : forall nd, fst (f nd) = fst nd).
  { intros nd. unfold f. destruct (cell_eqb (fst nd) k); reflexivity. }
  change (node_attr (mkGraph d (map f ns) es) n nm = Some v ->
          node_attr (mkGraph d ns es) n nm = Some v
          \/ (n = k /\ nm = name /\ v = v')).
  rewrite (node_attr_map f d es n nm ns Hf).
  rewrite (node_attr_plain d es n nm ns).
  destruct (find (fun nd : cell * attrs => cell_eqb (fst nd) n) ns)
    as [nd|] eqn:F; [|discriminate].
  apply find_some in F as [_ Hn]. apply cell_eqb_eq in Hn.
  unfold f. destruct (cell_eqb (fst nd) k) eqn:Ek; [|now left].
  apply cell_eqb_eq in Ek. cbn [snd]. intros H.
  apply dict_get_set in H as [H|[-> ->]]; [now left|].
  right. split; [congruence|now split].
Qed.

Lemma node_attr_set_node_attributes (vals : list (cell * cell)) (name : string)
      (n : cell) (nm : string) (v : cell) :
  forall G,
    node_attr (set_node_attributes G vals name) n nm = Some v ->
    node_attr G n nm = Some v \/ (nm = name /\ In (n, v) vals).
Proof.
  unfold set_node_attributes.
  induction vals as [|[k v'] vals IH]; intros G H; [now left|].
  cbn [fold_left fst snd] in H. apply IH in H as [H|[-> H]].
  - apply node_attr_set_node_attr in H as [H|[-> [-> ->]]].
    + left. now destruct G.
    + right. split; [reflexivity|now left].
  - right. split; [reflexivity|now right].
Qed.

Lemma dict_set_in (k k' v v' : cell) (d : list (cell * cell)) :
  In (k, v) (dict_set cell_eqb k' v' d) ->
  In (k, v) d \/ (k = k' /\ v = v').
Proof.
  induction d as [|[k0 v0] d IH]; simpl.
  - intros [H|[]]. injection H as <- <-. now right.
  - destruct (cell_eqb k0 k') eqn:E.
    + apply cell_eqb_eq in E. subst k0. intros [H|H].
      * injection H as <- <-. now right.
      * left. now right.
    + intros [H|H]; [left; now left|].
      destruct (IH H) as [H'|H']; [left; now right|now right].
Qed.

Lemma to_dict_in (s : list (cell * cell)) (k v : cell) :
  In (k, v) (to_dict s) -> In (k, v) s.
Proof.
  unfold to_dict.
  assert (H : forall acc, In (k, v) (fold_left
              (fun d kv => dict_set cell_eqb (fst kv) (snd kv) d) s acc) ->
              In (k, v) acc \/ In (k, v) s).
  { induction s as [|[k' v'] s IH]; intros acc H; [now left|].
    cbn [fold_left fst snd] in H. apply IH in H as [H|H]; [|right; now right].
    apply dict_set_in in H as [H|[-> ->]]; [now left|right; now left]. }
  intros Hin. now destruct (H [] Hin) as [[]|Hs].
Qed.

Lemma drop_duplicates_in (s : list (cell * cell)) (x : cell * cell) :
  In x (drop_duplicates s) -> In x s.
Proof.
  unfold drop_duplicates.
  assert (H : forall acc, In x (fold_left
              (fun acc kv => if existsb (fun q => cell_eqb (snd q) (snd kv)) acc
                             then acc else acc ++ [kv]) s acc) ->
              In x acc \/ In x s).
  { induction s as [|kv s IH]; intros acc H; [now left|].
    cbn [fold_left] in H. apply IH in H as [H|H]; [|right; now right].
    destruct (existsb _ acc); [now left|].
    apply in_app_or in H as [H|[<-|[]]]; [now left|right; now left]. }
  intros Hin. now destruct (H [] Hin) as [[]|Hs].
Qed.

Lemma combine_columns_in (i a : nat) (rows : list row) (k v : cell) :
  In (k, v) (combine (map (at_col i) rows) (map (at_col a) rows)) ->
  exists r, In r rows /\ at_col i r = k /\ at_col a r = v.
Proof.
  induction rows as [|r rows IH]; [intros []|].
  simpl. intros [H|H].
  - injection H as <- <-. exists r. auto.
  - destruct (IH H) as [r' [Hr' Heq]]. exists r'. auto.
Qed.

Lemma bind_node_attribute_source (cfg : Config) (df : DataFrame)
      (rows : list row) (G G' : Graph) (attr : string)
      (n : cell) (nm : string) (v : cell) :
  bind_node_attribute cfg df rows G attr = Ok G' ->
  node_attr G' n nm = Some v ->
  node_attr G n nm = Some v
  \/ (nm = attr
      /\ exists i a r, loc df (index_column cfg) = Ok i /\ loc df attr = Ok a
                       /\ In r rows /\ at_col i r = n /\ at_col a r = v).
Proof.
  unfold bind_node_attribute. intros H Hv.
  apply bind_ok in H as [a [Ha H]]. apply bind_ok in H as [i [Hi H]].
  apply bind_ok in H as [dct [Hd H]]. injection H as <-.
  apply node_attr_set_node_attributes in Hv as [Hv|[-> Hin]]; [now left|].
  right. split; [reflexivity|]. exists i, a.
  unfold node_attr_dict in Hd.
  destruct (existsb is_list _ || existsb is_list _); [discriminate|].
  injection Hd as <-.
  apply to_dict_in, drop_duplicates_in, combine_columns_in in Hin
    as [r Hr]. exists r. tauto.
Qed.

Lemma attribute_loop_source (cfg : Config) (df : DataFrame) (rows : list row)
      (n : cell) (nm : string) (v : cell) (names : list string) :
  forall G0 G,
    fold_left
      (fun acc attr => G <- acc ;; bind_node_attribute cfg df rows G attr)
      names (Ok G0) = Ok G ->
    node_attr G n nm = Some v ->
    node_attr G0 n nm = Some v
    \/ (In nm names
        /\ exists i a r, loc df (index_column cfg) = Ok i /\ loc df nm = Ok a
                         /\ In r rows /\ at_col i r = n /\ at_col a r = v).
Proof.
  induction names as [|a names IH]; intros G0 G H Hv.
  - injection H as <-. now left.
  - cbn [fold_left bind] in H.
    destruct (bind_node_attribute cfg df rows G0 a) as [G1|e] eqn:E.
    + destruct (IH G1 G H Hv) as [H1|[Hin Hex]].
      * destruct (bind_node_attribute_source _ _ _ _ _ _ _ _ _ E H1)
          as [H0|[-> Hex]]; [now left|].
        right. split; [now left|exact Hex].
      * right. split; [now right|exact Hex].
    + apply attribute_loop_frame in H as [G1 [H1 _]]. discriminate.
Qed.

Lemma add_edge_bare (e : edge_row) (G : Graph) :
  (forall nd, In nd (nodes G) -> snd nd = []) ->
  forall nd, In nd (nodes (add_edge e G)) -> snd nd = [].
Proof.
  assert (Hn : forall n G', (forall nd, In nd (nodes G') -> snd nd = []) ->
                 forall nd, In nd (nodes (add_node n G')) -> snd nd = []).
  { intros n G' H nd. unfold add_node. destruct (has_node G' n); [apply H|].
    simpl. intros Hin. apply in_app_or in Hin as [Hin|[<-|[]]];
      [now apply H|reflexivity]. }
  intros H nd Hin. unfold add_edge in Hin. cbn [nodes] in Hin.
  now apply (Hn _ _ (Hn _ _ H)) in Hin.
Qed.

Lemma build_bare (W : list edge_row) :
  forall G, (forall nd, In nd (nodes G) -> snd nd = []) ->
            forall nd, In nd (nodes (build W G)) -> snd nd = [].
Proof.
  induction W as [|e W IH]; intros G H; [exact H|].
  apply IH, add_edge_bare, H.
Qed.

Lemma node_attr_node (G : Graph) (n : cell) (nm : string) (v : cell) :
  node_attr G n nm = Some v ->
  In n (node_ids G)
  /\ exists nd, In nd (nodes G) /\ dict_get String.eqb nm (snd nd) = Some v.
Proof.
  unfold node_attr.
  destruct (find (fun nd => cell_eqb (fst nd) n) (nodes G)) as [nd|] eqn:F;
    [|discriminate].
  apply find_some in F as [Hin Heq]. apply cell_eqb_eq in Heq.
  intros H. split; [|now exists nd].
  rewrite <- Heq. unfold node_ids. now apply in_map.
Qed.

End AttributeProvenance.

(** A node attribute of the graph is one of the configured attribute
    columns, it sits on a node of the graph, and its value is the value
    of that column in a normalised row whose source cell is the node: no
    attribute is invented, and none lands on another node. *)
Theorem node_attributes_come_from_rows (L : Libs) (cfg : Config)
        (df : DataFrame) (G : Graph) (n : cell) (name : string) (v : cell) :
  convert_to_graph L cfg df = Ok G ->
  node_attr G n name = Some v ->
  In name (node_attrs cfg)
  /\ In n (node_ids G)
  /\ exists s ts rows a r,
      normalize L cfg df = Ok (s, ts, rows)
      /\ loc df name = Ok a
      /\ In r rows /\ at_col s r = n /\ at_col a r = v.
Proof.
  intros H Hv. pose proof (proj1 (node_attr_node G n name v Hv)) as Hnode.
  apply convert_to_graph_read in H as [H [u [df1 [Hu _]]]].
  unfold engine in H.
  apply bind_ok in H as [[rows G0] [Hg H]]. cbn [fst snd] in H.
  destruct (attribute_loop_source cfg df rows n name v _ _ _ H Hv)
    as [H0|[Hin [i [a [r [Hi [Ha [Hr [Hn Hval]]]]]]]]].
  - exfalso. unfold engine_graph in Hg.
    apply bind_ok in Hg as [nr [_ Hg]].
    apply bind_ok in Hg as [E [_ Hg]]. apply bind_ok in Hg as [W [_ Hg]].
    apply bind_ok in Hg as [G2 [HG Hg]]. injection Hg as _ <-.
    apply from_pandas_edgelist_ok in HG. subst G2.
    destruct (node_attr_node _ _ _ _ H0) as [_ [nd [Hnd Hget]]].
    rewrite (build_bare W (empty_graph (directed cfg))) in Hget;
      [discriminate|intros x []|exact Hnd].
  - split; [exact Hin|]. split; [exact Hnode|].
    unfold engine_graph in Hg.
    apply bind_ok in Hg as [nr [Hnr Hg]].
    apply bind_ok in Hg as [E [_ Hg]]. apply bind_ok in Hg as [W [_ Hg]].
    apply bind_ok in Hg as [G2 [_ Hg]]. injection Hg as <- _.
    destruct nr as [[s ts] rows']. cbn [snd] in *.
    assert (Hs : loc df (source cfg) = Ok s).
    { unfold normalize in Hnr. apply bind_ok in Hnr as [s' [Hs' Hnr]].
      apply bind_ok in Hnr as [ts' [_ Hnr]]. now injection Hnr as -> _ _. }
    assert (Hidx : index_column cfg = source cfg).
    { unfold usecols in Hu. unfold index_column.
      destruct (node_index cfg) as [[|c x]|]; try reflexivity. discriminate. }
    rewrite Hidx, Hs in Hi. injection Hi as <-.
    exists s, ts, rows', a, r. now repeat split.
Qed.

Lemma node_attributes_come_from_rows_example :
  In "c" ["c"]
  /\ In (Str "A") [Str "A"; Str "bob"]
  /\ exists s ts rows a r,
      normalize nx_recent mentions_with_colour orphan_colour = Ok (s, ts, rows)
      /\ loc orphan_colour "c" = Ok a
      /\ In r rows /\ at_col s r = Str "A" /\ at_col a r = Str "red".
Proof.
  apply (node_attributes_come_from_rows nx_recent mentions_with_colour
           orphan_colour
           (mkGraph true [(Str "A", [("c", Str "red")]); (Str "bob", [])]
                    [((Str "A", Str "bob"), Some 1)]));
    reflexivity.
Defined.

(** ** Explosion *)

Section Explosion.

Lemma explode_row_cols (j : nat) (r r' : row) :
  In r' (explode_row j r) ->
  is_list (at_col j r') = false
  /\ forall i, i <> j -> at_col i r' = at_col i r.
Proof.
  unfold explode_row. destruct (at_col j r) as [x| |[|m l]] eqn:E.
  - intros [<-|[]]. rewrite E. split; [reflexivity|auto].
  - intros [<-|[]]. rewrite E. split; [reflexivity|auto].
  - intros [<-|[]]. rewrite at_put_same. split; [reflexivity|].
    intros i Hi. now apply at_put_other.
  - intros H. apply in_map_iff in H as [x [<- _]]. rewrite at_put_same.
    split; [reflexivity|]. intros i Hi. now apply at_put_other.
Qed.

(** Exploding the columns [js] one after the other leaves no list in any
    of them. *)
Lemma explode_all_no_list (js : list nat) :
  forall (done : list nat) (rows : list row),
    (forall r j, In r rows -> In j done -> is_list (at_col j r) = false) ->
    forall r' j,
      In r' (fold_left (fun rows j => df_explode j rows) js rows) ->
      In j done \/ In j js -> is_list (at_col j r') = false.
Proof.
  induction js as [|k js IH]; intros done rows Hd r' j Hr' Hj.
  - destruct Hj as [Hj|[]]. now apply (Hd r' j).
  - cbn [fold_left] in Hr'.
    apply (IH (k :: done) (df_explode k rows)) with (r' := r'); [|exact Hr'|].
    + intros r i Hr Hi. unfold df_explode in Hr.
      apply in_flat_map in Hr as [r0 [Hr0 Hr]].
      destruct (explode_row_cols k r0 r Hr) as [Hk Hother].
      destruct (Nat.eq_dec i k) as [->|Hne]; [exact Hk|].
      rewrite (Hother i Hne). destruct Hi as [Hi|Hi]; [congruence|].
      now apply (Hd r0 i).
    + destruct Hj as [Hj|[Hj|Hj]]; [left; now right|left; now left|now right].
Qed.







End Explosion.



Section ListsKept.

Lemma get_loc_nth (c : string) (cols : list string) :
  forall j, get_loc c cols = Some j -> nth_error cols j = Some c.
Proof.
  induction cols as [|h cols IH]; intros j H; [discriminate|].
  cbn [get_loc] in H. destruct (String.eqb h c) eqn:E.
  - injection H as <-. apply String.eqb_eq in E. now subst h.
  - destruct (get_loc c cols) as [k|]; [|discriminate].
    injection H as <-. now apply IH.
Qed.

(** Two names with the same position are the same name. *)
Lemma loc_same_position (df : DataFrame) (a b : string) (j : nat) :
  loc df a = Ok j -> loc df b = Ok j -> a = b.
Proof.
  unfold loc. intros Ha Hb.
  destruct (get_loc a (columns df)) as [x|] eqn:Ea; [|discriminate].
  destruct (get_loc b (columns df)) as [y|] eqn:Eb; [|discriminate].
  injection Ha as ->. injection Hb as ->.
  apply get_loc_nth in Ea. apply get_loc_nth in Eb. congruence.
Qed.

Lemma mapM_loc_in (df : DataFrame) (ts : list string) (js : list nat)
      (j : nat) :
  mapM (loc df) ts = Ok js -> In j js ->
  exists t, In t ts /\ loc df t = Ok j.
Proof.
  intros H. apply mapM_ok_inv in H.
  induction H as [|t k ts js Ht _ IH]; intros Hj; [destruct Hj|].
  destruct Hj as [<-|Hj].
  - exists t. split; [now left|exact Ht].
  - destruct (IH Hj) as [t' [Hin Hl]]. exists t'. split; [now right|exact Hl].
Qed.

(** Without explosion, what a list-valued target extractor returned is
    still in every target cell. *)
Lemma kept_lists (f g : cell -> cell) (s : nat) (ts : list nat)
      (rows : list row) (r : row) (t : nat) :
  (forall c, is_list (g c) = true) ->
  In r (map (applymap_row g ts) (apply_column f s rows)) -> In t ts ->
  is_list (at_col t r) = true.
Proof.
  intros Hg Hr Ht. apply in_map_iff in Hr as [r1 [<- _]].
  rewrite applymap_row_col.
  destruct (in_dec Nat.eq_dec t ts) as [_|Hout]; [apply Hg|now elim Hout].
Qed.

Lemma cell_ne_list (a : cell) (l : list string) :
  cell_ne a (Lst l) = false -> a = Lst l.
Proof.
  unfold cell_ne. destruct a as [x| |m]; try discriminate;
    intros H; apply negb_false_iff, cell_eqb_eq in H; exact H.
Qed.

End ListsKept.

(** With [explode=False] and a list-valued target extractor the engine
    returns no graph that has a node or an edge: the lists stay in the
    target columns, and a list can be neither counted nor be a node.  A
    graph that is returned is the empty graph, no candidate pair having
    survived; and then the table has no row, or self-loops are disallowed
    and the source column holds lists as well, being a target column
    itself or filled by a source extractor that returned a list. *)
Theorem lists_without_explosion_fail (L : Libs) (cfg : Config)
        (df : DataFrame) (G : Graph) :
  explode cfg = false ->
  (forall x, is_list (target_map cfg x) = true) ->
  convert_to_graph L cfg df = Ok G ->
  G = empty_graph (directed cfg)
  /\ surviving_pairs L cfg df = Ok []
  /\ (values df = []
      \/ (self_loops cfg = false
          /\ (In (source cfg) (target cfg)
              \/ exists x, is_list (source_map cfg x) = true))).
Proof.
  intros Hex Htm H. pose proof H as H'.
  apply convert_to_graph_ok in H'
    as [E [W [fr [G0 [HE [HW [_ [HG0 [Hn [He Hd]]]]]]]]]].
  apply convert_to_graph_edgelist in H as [E' [W' [G1 [HE' [HW' [HG _]]]]]].
  rewrite HE in HE'. injection HE' as <-.
  rewrite HW in HW'. injection HW' as <-.
  destruct (from_pandas_edgelist_inv _ _ _ _ _ _ HG) as [Hu _].
  destruct (weigh_ok _ _ _ HW) as [HWE _].
  pose proof HE as Hpairs. unfold surviving_pairs, normalize in Hpairs.
  apply bind_ok in Hpairs as [n [Hn0 Hcp]].
  apply bind_ok in Hn0 as [s [Hs Hn0]]. apply bind_ok in Hn0 as [ts [Hts Hn0]].
  rewrite Hex in Hn0. injection Hn0 as <-. cbn [fst snd] in Hcp.
  set (f := fun c => source_map cfg (astype_str L c)) in Hcp.
  set (g := fun c => target_map cfg (astype_str L c)) in Hcp.
  assert (Hg : forall c, is_list (g c) = true) by (intros c; apply Htm).
  unfold candidate_pairs in Hcp. apply bind_ok in Hcp as [E0 [HE0 Hcp]].
  injection Hcp as Hcp.
  assert (Hsub : forall p, In p E -> In p E0).
  { intros p Hp. rewrite <- Hcp in Hp. destruct (self_loops cfg); [exact Hp|].
    unfold drop_self_loops in Hp. now apply filter_In in Hp. }
  assert (Hnil : E = []).
  { destruct E as [|p E1]; [reflexivity|]. exfalso.
    assert (Hp : In p (p :: E1)) by now left.
    pose proof (Hsub p Hp) as Hp0.
    apply (edge_frame_in _ _ _ _ _ HE0) in Hp0 as [t [r [Ht [Hr [_ ->]]]]].
    pose proof (kept_lists f g s ts (values df) r t Hg Hr Ht) as Hl.
    rewrite <- HWE in Hp. apply in_map_iff in Hp as [e [Hfe Hin]].
    assert (Hbad : unhashable W = true).
    { unfold unhashable. apply existsb_exists. exists e.
      split; [exact Hin|]. destruct e as [q w]. cbn [fst] in Hfe.
      subst q. cbn [fst snd]. rewrite Hl. apply orb_true_r. }
    congruence. }
  subst E. destruct W as [|e W]; [|discriminate].
  split; [|split; [exact HE|]].
  - destruct G as [dG nG eG]. unfold node_ids in Hn. subst G0.
    cbn [nodes edges is_directed build fold_left empty_graph map] in *.
    destruct nG; [|discriminate]. now subst.
  - destruct (values df) as [|r0 rest] eqn:Hv; [now left|]. right.
    destruct ts as [|t ts]; [discriminate|].
    set (r2 := applymap_row g (t :: ts) (put s (f (at_col s r0)) r0)).
    assert (Hr2 : In r2 (map (applymap_row g (t :: ts))
                             (apply_column f s (r0 :: rest)))) by now left.
    assert (Ht : In t (t :: ts)) by now left.
    pose proof (kept_lists f g s (t :: ts) _ r2 t Hg Hr2 Ht) as Hl.
    assert (Hin : In (at_col s r2, at_col t r2) E0).
    { apply (edge_frame_in _ _ _ _ _ HE0). exists t, r2.
      repeat split; try assumption. now destruct (at_col t r2). }
    destruct (self_loops cfg).
    + rewrite Hcp in Hin. destruct Hin.
    + split; [reflexivity|].
      assert (Hloop : cell_ne (at_col s r2) (at_col t r2) = false).
      { destruct (cell_ne (at_col s r2) (at_col t r2)) eqn:Ene;
          [|reflexivity].
        assert (Hx : In (at_col s r2, at_col t r2) (drop_self_loops E0))
          by (apply filter_In; split; [exact Hin|exact Ene]).
        rewrite Hcp in Hx. destruct Hx. }
      destruct (at_col t r2) as [x| |l] eqn:Et; try discriminate.
      apply cell_ne_list in Hloop.
      unfold r2 in Hloop. rewrite applymap_row_col in Hloop.
      destruct (in_dec Nat.eq_dec s (t :: ts)) as [Hin'|_].
      * left. destruct (mapM_loc_in df _ _ s Hts Hin') as [t' [Ht' Hl']].
        now rewrite (loc_same_position df _ _ s Hs Hl').
      * right. exists (astype_str L (at_col s r0)).
        rewrite at_put_same in Hloop. unfold f in Hloop. now rewrite Hloop.
Qed.

(** Mentions on both sides, not exploded: the one row is a self-loop of
    lists, it is dropped, and the empty graph comes back. *)
Lemma lists_without_explosion_fail_example :
  empty_graph true
  = empty_graph
      (directed (mkConfig "s" ["t"] [] [] None mentions_map mentions_map
                          true false false true))
  /\ surviving_pairs nx_recent
       (mkConfig "s" ["t"] [] [] None mentions_map mentions_map
                 true false false true)
       (mkDF ["s"; "t"] [[Str "@a"; Str "@a"]])
     = Ok []
  /\ (values (mkDF ["s"; "t"] [[Str "@a"; Str "@a"]]) = []
      \/ (self_loops (mkConfig "s" ["t"] [] [] None mentions_map mentions_map
                               true false false true) = false
          /\ (In "s" ["t"]
              \/ exists x, is_list (mentions_map x) = true))).
Proof.
  apply (lists_without_explosion_fail nx_recent
           (mkConfig "s" ["t"] [] [] None mentions_map mentions_map
                     true false false true)
           (mkDF ["s"; "t"] [[Str "@a"; Str "@a"]])
           (empty_graph true)).
  - reflexivity.
  - intros x. reflexivity.
  - reflexivity.
Defined.

(** ** What makes the weighted engine raise when explosion is on *)

Section ExplodedWeights.

Lemma mapM_first_error {A B} (f : A -> result B) (e : error) (l : list A) :
  (forall a, In a l -> (exists b, f a = Ok b) \/ f a = Err e) ->
  (exists a, In a l /\ f a = Err e) ->
  mapM f l = Err e.
Proof.
  induction l as [|a l IH]; intros Hall [x [Hx Hfx]]; [destruct Hx|].
  simpl. destruct (Hall a (or_introl eq_refl)) as [[b Hb]|Hb];
    rewrite Hb; [|reflexivity].
  simpl. destruct Hx as [->|Hx]; [congruence|].
  rewrite IH; [reflexivity| |eauto].
  intros y Hy. apply Hall. now right.
Qed.

Lemma surviving_pairs_no_list (L : Libs) (cfg : Config) (df : DataFrame)
      (E : list edge_key) (p : edge_key) :
  explode cfg = true -> surviving_pairs L cfg df = Ok E -> In p E ->
  is_list (fst p) = false /\ is_list (snd p) = false /\ isna (snd p) = false.
Proof.
  intros Hex HE Hp. unfold surviving_pairs in HE.
  apply bind_ok in HE as [n [Hn HE]].
  pose proof (candidate_pairs_target_present _ _ _ _ _ _ HE Hp) as Hna.
  unfold normalize in Hn. apply bind_ok in Hn as [s [Hs Hn]].
  apply bind_ok in Hn as [ts [Hts Hn]]. rewrite Hex in Hn.
  injection Hn as <-. cbn [fst snd] in HE.
  unfold candidate_pairs in HE. apply bind_ok in HE as [E0 [H0 HE]].
  injection HE as <-.
  assert (Hp0 : In p E0).
  { destruct (self_loops cfg); [exact Hp|].
    unfold drop_self_loops in Hp. now apply filter_In in Hp. }
  apply (edge_frame_in _ _ _ _ _ H0) in Hp0 as [t [r [Ht [Hr [_ ->]]]]].
  cbn [fst snd].
  split; [|split; [|exact Hna]].
  - apply (explode_all_no_list (s :: ts) [] _ (fun _ _ _ F => match F with end)
                               r s Hr).
    right. now left.
  - apply (explode_all_no_list (s :: ts) [] _ (fun _ _ _ F => match F with end)
                               r t Hr).
    right. now right.
Qed.

End ExplodedWeights.

(** With explosion and weighting on and no attribute column, a table
    that gives candidate pairs makes the engine raise exactly when some
    surviving pair has a missing source, and then it raises [KeyError];
    otherwise a graph is returned. *)
Theorem missing_source_is_the_only_failure (L : Libs) (cfg : Config)
        (df : DataFrame) (E : list edge_key) :
  explode cfg = true -> weighted cfg = true ->
  node_index cfg = None -> edge_attrs cfg = [] -> node_attrs cfg = [] ->
  surviving_pairs L cfg df = Ok E ->
  (existsb (fun p => isna (fst p)) E = true ->
   convert_to_graph L cfg df = Err KeyError)
  /\ (existsb (fun p => isna (fst p)) E = false ->
      exists G, convert_to_graph L cfg df = Ok G).
Proof.
  intros Hex Hw Hi Hea Hna HE.
  assert (Hcells := fun p => surviving_pairs_no_list L cfg df E p Hex HE).
  assert (Hnl : existsb (fun p => is_list (fst p) || is_list (snd p)) E = false).
  { apply not_true_is_false. intros H.
    apply existsb_exists in H as [p [Hp H]].
    destruct (Hcells p Hp) as [H1 [H2 _]]. rewrite H1, H2 in H. discriminate. }
  assert (Hrun : convert_to_graph L cfg df
                 = (W <- weigh cfg E ;;
                    G <- from_pandas_edgelist L (directed cfg) true [] W ;;
                    Ok G)).
  { rewrite convert_to_graph_engine, (usecols_no_index cfg (or_introl Hi)).
    cbn [bind]. unfold surviving_pairs in HE.
    destruct (normalize L cfg df) as [n|e] eqn:Hn; [|discriminate].
    destruct (read_csv_total
                (source cfg :: target cfg ++ node_attrs cfg ++ edge_attrs cfg)
                df) as [df1 ->].
    { rewrite Hea, Hna. cbn [app]. rewrite app_nil_r.
      exact (normalize_columns L cfg df n Hn). }
    cbn [bind]. unfold engine, engine_graph. rewrite Hn.
    cbn [bind] in HE |- *. rewrite HE, Hw, Hea, Hna. cbn [bind].
    destruct (weigh cfg E) as [W|e]; [|reflexivity]. cbn [bind].
    destruct (from_pandas_edgelist L (directed cfg) true [] W);
      reflexivity. }
  rewrite Hrun. unfold weigh. rewrite Hw. split.
  - intros Hm. apply existsb_exists in Hm as [p [Hp Hm]].
    unfold add_weights.
    destruct (value_counts E) as [weights|e] eqn:Hv;
      [|unfold value_counts in Hv; rewrite Hnl in Hv; discriminate].
    cbn [bind].
    rewrite (mapM_first_error
               (fun p => k <- weights_loc weights p ;; Ok (p, k)) KeyError E);
      [reflexivity| |].
    + intros a Ha. rewrite (weights_loc_value_counts E weights a Hv Ha).
      destruct (counted a); [left; eexists; reflexivity|now right].
    + exists p. split; [exact Hp|].
      rewrite (weights_loc_value_counts E weights p Hv Hp).
      unfold counted. now rewrite Hm.
  - intros Hm. rewrite add_weights_total; [|apply forallb_forall|exact Hnl].
    + cbn [bind]. unfold from_pandas_edgelist. cbn [app forallb andb String.eqb].
      set (W := map _ (map _ E)).
      assert (HU : unhashable W = false).
      { apply not_true_is_false. intros H. unfold unhashable in H.
        apply existsb_exists in H as [e [Hin H]]. unfold W in Hin.
        rewrite map_map in Hin. apply in_map_iff in Hin as [p [<- Hp]].
        cbn [fst snd] in H. destruct (Hcells p Hp) as [H1 [H2 _]].
        rewrite H1, H2 in H. discriminate. }
      rewrite HU. cbn [bind]. eexists. reflexivity.
    + intros p Hp. unfold counted.
      destruct (Hcells p Hp) as [_ [_ H3]]. rewrite H3, orb_false_r.
      apply negb_true_iff.
      destruct (isna (fst p)) eqn:Ep; [|reflexivity].
      assert (existsb (fun p => isna (fst p)) E = true)
        by (apply existsb_exists; eauto).
      congruence.
Qed.

Lemma missing_source_is_the_only_failure_example :
  (existsb (fun p => isna (fst p)) [(NaN, Str "x")] = true ->
   convert_to_graph nx_recent (mentions_on_source true) missing_source
   = Err KeyError)
  /\ (existsb (fun p => isna (fst p)) [(NaN, Str "x")] = false ->
      exists G, convert_to_graph nx_recent (mentions_on_source true)
                                 missing_source = Ok G).
Proof.
  apply (missing_source_is_the_only_failure nx_recent (mentions_on_source true)
           missing_source [(NaN, Str "x")]); reflexivity.
Defined.

(** ** Comma-separated column lists (lines 68-70) *)

Section CommaLists.

Lemma split_on_from_cons (sep : ascii) (s : string) :
  forall tok, exists x l, PyStr.split_on_from sep tok s = x :: l.
Proof.
  induction s as [|c s IH]; intros tok; simpl; [eauto|].
  destruct (Ascii.eqb c sep); [eauto|apply IH].
Qed.

Lemma join_split_from (sep : ascii) (s : string) :
  forall tok,
    String.concat (String sep "") (PyStr.split_on_from sep tok s)
    = (tok ++ s)%string.
Proof.
  induction s as [|c s IH]; intros tok.
  - simpl. now rewrite append_empty_r.
  - cbn [PyStr.split_on_from]. destruct (Ascii.eqb c sep) eqn:E.
    + apply Ascii.eqb_eq in E. subst c.
      destruct (split_on_from_cons sep s "") as [x [l Hx]].
      specialize (IH ""). rewrite Hx in IH |- *.
      change (String.concat (String sep "") (tok :: x :: l))
        with (tok ++ String sep "" ++ String.concat (String sep "") (x :: l))%string.
      rewrite IH. reflexivity.
    + rewrite IH. apply append_assoc_char.
Qed.

Lemma split_on_from_plain (sep : ascii) (x : string) :
  contains sep x = false ->
  forall tok, PyStr.split_on_from sep tok x = [(tok ++ x)%string].
Proof.
  induction x as [|c x IH]; intros H tok.
  - simpl. now rewrite append_empty_r.
  - simpl in H. apply orb_false_iff in H as [Hc Hx].
    cbn [PyStr.split_on_from]. rewrite Hc, (IH Hx).
    now rewrite append_assoc_char.
Qed.

Lemma split_on_from_sep (sep : ascii) (x y : string) :
  contains sep x = false ->
  forall tok,
    PyStr.split_on_from sep tok (x ++ String sep y)
    = (tok ++ x)%string :: PyStr.split_on_from sep "" y.
Proof.
  induction x as [|c x IH]; intros H tok.
  - simpl. rewrite Ascii.eqb_refl. now rewrite append_empty_r.
  - simpl in H. apply orb_false_iff in H as [Hc Hx].
    cbn [append PyStr.split_on_from]. rewrite Hc, (IH Hx).
    now rewrite append_assoc_char.
Qed.

End CommaLists.

(** Splitting a comma-separated argument and joining the parts with
    commas are inverse to each other: the argument is recovered from its
    parts, and a list of names without comma, not empty, is recovered
    from its joined form; so the command line always gives at least one
    target column. *)
Theorem comma_lists_round_trip :
  (forall s, String.concat "," (PyStr.split_on comma s) = s)
  /\ (forall l, l <> [] -> (forall x, In x l -> contains comma x = false) ->
                PyStr.split_on comma (String.concat "," l) = l)
  /\ (forall c, target (args c) <> []
                /\ String.concat "," (target (args c)) = cl_target c).
Proof.
  assert (H1 : forall s, String.concat "," (PyStr.split_on comma s) = s)
    by (intros s; apply (join_split_from comma s "")).
  split; [exact H1|]. split.
  - induction l as [|x l IH]; intros Hne Hall; [now elim Hne|].
    destruct l as [|y l].
    + simpl. unfold PyStr.split_on.
      rewrite split_on_from_plain by (apply Hall; now left). reflexivity.
    + change (String.concat "," (x :: y :: l))
        with (x ++ String comma (String.concat "," (y :: l)))%string.
      unfold PyStr.split_on.
      rewrite split_on_from_sep by (apply Hall; now left).
      fold (PyStr.split_on comma (String.concat "," (y :: l))).
      rewrite IH; [reflexivity|discriminate|].
      intros z Hz. apply Hall. now right.
  - intros c. split; [|apply H1]. cbn [args target].
    unfold PyStr.split_on.
    destruct (split_on_from_cons comma (cl_target c) "") as [x [l ->]].
    discriminate.
Qed.

Lemma comma_lists_round_trip_example :
  PyStr.split_on comma (String.concat "," ["to"; "cc"; "reply to"])
  = ["to"; "cc"; "reply to"].
Proof.
  apply (proj1 (proj2 comma_lists_round_trip)).
  - discriminate.
  - intros x [<-|[<-|[<-|[]]]]; reflexivity.
Defined.

(** ** One attribute value, one node *)

Section AttributeValues.

Lemma drop_duplicates_values (s : list (cell * cell)) :
  NoDup (map snd (drop_duplicates s)).
Proof.
  unfold drop_duplicates.
  assert (H : forall acc, NoDup (map snd acc) ->
              NoDup (map snd (fold_left
                (fun acc kv => if existsb (fun q => cell_eqb (snd q) (snd kv)) acc
                               then acc else acc ++ [kv]) s acc))).
  { induction s as [|kv s IH]; intros acc Hacc; [exact Hacc|].
    cbn [fold_left]. apply IH.
    destruct (existsb (fun q => cell_eqb (snd q) (snd kv)) acc) eqn:E;
      [exact Hacc|].
    rewrite map_app. apply NoDup_app; [exact Hacc|repeat constructor; intros []|].
    intros v Hv [Heq|[]]. apply in_map_iff in Hv as [q [Hq Hin]].
    assert (existsb (fun q => cell_eqb (snd q) (snd kv)) acc = true).
    { apply existsb_exists. exists q. split; [exact Hin|].
      apply cell_eqb_eq. congruence. }
    congruence. }
  apply H. constructor.
Qed.

Lemma dict_set_values (k v : cell) (d : list (cell * cell)) :
  NoDup (map snd d) -> ~ In v (map snd d) ->
  NoDup (map snd (dict_set cell_eqb k v d))
  /\ forall x, In x (map snd (dict_set cell_eqb k v d)) ->
               In x (map snd d) \/ x = v.
Proof.
  induction d as [|[k0 v0] d IH]; intros Hd Hv.
  - simpl. split; [repeat constructor; intros []|].
    intros x [<-|[]]. now right.
  - simpl in Hd, Hv. inversion Hd as [|? ? Hv0 Hd']; subst.
    simpl. destruct (cell_eqb k0 k).
    + simpl. split.
      * constructor; [|exact Hd']. intros Hin. apply Hv. now right.
      * intros x [<-|Hx]; [now right|left; now right].
    + destruct IH as [IH1 IH2]; [exact Hd'|tauto|]. simpl. split.
      * constructor; [|exact IH1]. intros Hin.
        destruct (IH2 v0 Hin) as [H|H]; [now apply Hv0|].
        apply Hv. left. exact H.
      * intros x [<-|Hx]; [left; now left|].
        destruct (IH2 x Hx) as [H|H]; [left; now right|now right].
Qed.

Lemma to_dict_values (s : list (cell * cell)) :
  NoDup (map snd s) -> NoDup (map snd (to_dict s)).
Proof.
  unfold to_dict.
  assert (H : forall acc,
             NoDup (map snd acc) -> NoDup (map snd s) ->
             (forall v, In v (map snd acc) -> ~ In v (map snd s)) ->
             NoDup (map snd (fold_left
               (fun d kv => dict_set cell_eqb (fst kv) (snd kv) d) s acc))).
  { induction s as [|[k v] s IH]; intros acc Hacc Hs Hdis; [exact Hacc|].
    cbn [fold_left fst snd]. simpl in Hs. inversion Hs as [|? ? Hv Hs']; subst.
    destruct (dict_set_values k v acc Hacc) as [H1 H2].
    { intros Hin. apply (Hdis v Hin). now left. }
    apply IH; [exact H1|exact Hs'|].
    intros x Hx Hin. destruct (H2 x Hx) as [Hold| ->].
    - apply (Hdis x Hold). now right.
    - now apply Hv. }
  intros Hs. apply H; [constructor|exact Hs|intros v []].
Qed.

Lemma node_attr_dict_values (index vals : list cell) (d : list (cell * cell))
      (n1 n2 v : cell) :
  node_attr_dict index vals = Ok d ->
  In (n1, v) d -> In (n2, v) d -> n1 = n2.
Proof.
  unfold node_attr_dict.
  destruct (existsb is_list index || existsb is_list vals); [discriminate|].
  intros H. injection H as <-.
  pose proof (to_dict_values _ (drop_duplicates_values (combine index vals)))
    as Hnd.
  set (dct := to_dict (drop_duplicates (combine index vals))) in *.
  clearbody dct. induction dct as [|[k x] dct IH]; [intros []|].
  simpl in Hnd. inversion Hnd as [|? ? Hx Hnd']; subst.
  intros [H1|H1] [H2|H2].
  - congruence.
  - injection H1 as -> ->. elim Hx. apply in_map_iff. now exists (n2, v).
  - injection H2 as -> ->. elim Hx. apply in_map_iff. now exists (n1, v).
  - now apply IH.
Qed.

Lemma bind_node_attribute_dict (cfg : Config) (df : DataFrame)
      (rows : list row) (G G' : Graph) (attr : string)
      (n : cell) (nm : string) (v : cell) :
  bind_node_attribute cfg df rows G attr = Ok G' ->
  node_attr G' n nm = Some v ->
  node_attr G n nm = Some v
  \/ (nm = attr
      /\ exists i a d, loc df (index_column cfg) = Ok i /\ loc df attr = Ok a
                       /\ node_attr_dict (map (at_col i) rows)
                                         (map (at_col a) rows) = Ok d
                       /\ In (n, v) d).
Proof.
  unfold bind_node_attribute. intros H Hv.
  apply bind_ok in H as [a [Ha H]]. apply bind_ok in H as [i [Hi H]].
  apply bind_ok in H as [dct [Hd H]]. injection H as <-.
  apply node_attr_set_node_attributes in Hv as [Hv|[-> Hin]]; [now left|].
  right. split; [reflexivity|]. exists i, a, dct. auto.
Qed.

Lemma attribute_loop_dict (cfg : Config) (df : DataFrame) (rows : list row)
      (n : cell) (nm : string) (v : cell) (names : list string) :
  forall G0 G,
    fold_left
      (fun acc attr => G <- acc ;; bind_node_attribute cfg df rows G attr)
      names (Ok G0) = Ok G ->
    node_attr G n nm = Some v ->
    node_attr G0 n nm = Some v
    \/ exists i a d, loc df (index_column cfg) = Ok i /\ loc df nm = Ok a
                     /\ node_attr_dict (map (at_col i) rows)
                                       (map (at_col a) rows) = Ok d
                     /\ In (n, v) d.
Proof.
  induction names as [|a names IH]; intros G0 G H Hv.
  - injection H as <-. now left.
  - cbn [fold_left bind] in H.
    destruct (bind_node_attribute cfg df rows G0 a) as [G1|e] eqn:E.
    + destruct (IH G1 G H Hv) as [H1|Hex]; [|now right].
      destruct (bind_node_attribute_dict _ _ _ _ _ _ _ _ _ E H1)
        as [H0|[-> Hex]]; [now left|now right].
    + apply attribute_loop_frame in H as [G1 [H1 _]]. discriminate.
Qed.

End AttributeValues.

(** Within one attribute no two nodes of the graph carry the same value:
    [drop_duplicates] keeps one entry per value, so a value that several
    nodes share reaches one of them only. *)
Theorem attribute_value_on_one_node (L : Libs) (cfg : Config)
        (df : DataFrame) (G : Graph) (n1 n2 : cell) (name : string)
        (v : cell) :
  convert_to_graph L cfg df = Ok G ->
  node_attr G n1 name = Some v -> node_attr G n2 name = Some v ->
  n1 = n2.
Proof.
  intros H H1 H2. apply convert_to_graph_read in H as [H _].
  unfold engine in H.
  apply bind_ok in H as [[rows G0] [Hg H]]. cbn [fst snd] in H.
  assert (Hbare : forall n, node_attr G0 n name = None).
  { intros n. unfold engine_graph in Hg.
    apply bind_ok in Hg as [nr [_ Hg]].
    apply bind_ok in Hg as [E [_ Hg]]. apply bind_ok in Hg as [W [_ Hg]].
    apply bind_ok in Hg as [G2 [HG Hg]]. injection Hg as _ <-.
    apply from_pandas_edgelist_ok in HG. subst G2.
    destruct (node_attr (build W (empty_graph (directed cfg))) n name)
      as [x|] eqn:E'; [|reflexivity].
    destruct (node_attr_node _ _ _ _ E') as [_ [nd [Hnd Hget]]].
    rewrite (build_bare W (empty_graph (directed cfg))) in Hget;
      [discriminate|intros y []|exact Hnd]. }
  destruct (attribute_loop_dict cfg df rows n1 name v _ _ _ H H1)
    as [H0|[i [a [d [Hi [Ha [Hd Hin1]]]]]]]; [rewrite Hbare in H0; discriminate|].
  destruct (attribute_loop_dict cfg df rows n2 name v _ _ _ H H2)
    as [H0|[i' [a' [d' [Hi' [Ha' [Hd' Hin2]]]]]]];
    [rewrite Hbare in H0; discriminate|].
  rewrite Hi in Hi'. injection Hi' as <-. rewrite Ha in Ha'.
  injection Ha' as <-. rewrite Hd in Hd'. injection Hd' as <-.
  exact (node_attr_dict_values _ _ _ _ _ _ Hd Hin1 Hin2).
Qed.

Lemma attribute_value_on_one_node_example :
  Str "A" = Str "A".
Proof.
  apply (attribute_value_on_one_node nx_recent with_colour same_colour
           (mkGraph true [(Str "A", [("c", Str "x")]); (Str "B", [])]
                    [((Str "A", Str "B"), Some 1); ((Str "B", Str "A"), Some 1)])
           (Str "A") (Str "A") "c" (Str "x"));
    reflexivity.
Defined.
